(** * The snake game of [game.js]: state machine, food placement, high score

    A shallow embedding of the script's global variables, of the part of the
    page it reads and writes (the interval timers, the game-over banner, the
    storage key [snakeHighScore], the random number generator) and of its
    functions, followed by the properties of the game state machine.

    Conventions.
    - Grid coordinates, the score and the tick interval are JavaScript
      numbers that only ever hold integers: they are [Z].
    - [TILE_COUNT] is [canvas.width / GRID_SIZE], a number that need not be
      an integer: it is a rational [Q].  The canvas element is declared in
      the page markup, so its width is a variable of the development.
    - [Math.random()] is an oracle [Math_random : nat -> Q]; the state counts
      the calls made so far, so the n-th call returns [Math_random n].
      Doubles are idealised as rationals.
    - The stored high score is a string that holds a number, and the script
      only ever compares it as a number: it is a [Z], absent when the key
      has never been written.
    - [setInterval] and [clearInterval] act on the page's list of active
      timers; a timer fires only while it is in that list.
    - A function that calls [generateFood] takes the recursion depth it may
      use as [fuel] and returns an [option]: [None] stands for a call that
      does not return normally.
    - [draw()] and the text of the buttons and score labels do not feed back
      into the game state; they are left out of it.  [draw()] is modelled
      apart, as the list of the calls it makes on the canvas. *)

From Stdlib Require Import ZArith QArith Qround List Bool Lia.
From Stdlib Require String.
Import ListNotations String.StringSyntax.
Delimit Scope string_scope with string.
Local Open Scope Z_scope.

(** ** Data *)

Record Cell := mkCell { x : Z; y : Z }.

Definition cell_eqb (a b : Cell) : bool := (x a =? x b) && (y a =? y b).

Record State := mkState {
  (* the script's variables *)
  snake : list Cell;
  food : Cell;
  dx : Z;
  dy : Z;
  score : Z;
  highScore : Z;
  gameLoop : option nat;          (* handle of the last interval created *)
  gameStarted : bool;
  gamePaused : bool;
  gameSpeed : Z;
  (* the page *)
  gameOverShown : bool;           (* gameOverElement.style.display is 'block' *)
  intervals : list (nat * Z);     (* active interval timers: handle, delay *)
  nextHandle : nat;               (* handle the next setInterval returns *)
  setItemLog : list Z;            (* values written to 'snakeHighScore', newest first *)
  randomCalls : nat               (* calls made to Math.random so far *)
}.

Definition set_snake v s := mkState v (food s) (dx s) (dy s) (score s) (highScore s)
  (gameLoop s) (gameStarted s) (gamePaused s) (gameSpeed s) (gameOverShown s)
  (intervals s) (nextHandle s) (setItemLog s) (randomCalls s).
Definition set_food v s := mkState (snake s) v (dx s) (dy s) (score s) (highScore s)
  (gameLoop s) (gameStarted s) (gamePaused s) (gameSpeed s) (gameOverShown s)
  (intervals s) (nextHandle s) (setItemLog s) (randomCalls s).
Definition set_dir vx vy s := mkState (snake s) (food s) vx vy (score s) (highScore s)
  (gameLoop s) (gameStarted s) (gamePaused s) (gameSpeed s) (gameOverShown s)
  (intervals s) (nextHandle s) (setItemLog s) (randomCalls s).
Definition set_score v s := mkState (snake s) (food s) (dx s) (dy s) v (highScore s)
  (gameLoop s) (gameStarted s) (gamePaused s) (gameSpeed s) (gameOverShown s)
  (intervals s) (nextHandle s) (setItemLog s) (randomCalls s).
Definition set_highScore v s := mkState (snake s) (food s) (dx s) (dy s) (score s) v
  (gameLoop s) (gameStarted s) (gamePaused s) (gameSpeed s) (gameOverShown s)
  (intervals s) (nextHandle s) (setItemLog s) (randomCalls s).
Definition set_gameLoop v s := mkState (snake s) (food s) (dx s) (dy s) (score s)
  (highScore s) v (gameStarted s) (gamePaused s) (gameSpeed s) (gameOverShown s)
  (intervals s) (nextHandle s) (setItemLog s) (randomCalls s).
Definition set_gameStarted v s := mkState (snake s) (food s) (dx s) (dy s) (score s)
  (highScore s) (gameLoop s) v (gamePaused s) (gameSpeed s) (gameOverShown s)
  (intervals s) (nextHandle s) (setItemLog s) (randomCalls s).
Definition set_gamePaused v s := mkState (snake s) (food s) (dx s) (dy s) (score s)
  (highScore s) (gameLoop s) (gameStarted s) v (gameSpeed s) (gameOverShown s)
  (intervals s) (nextHandle s) (setItemLog s) (randomCalls s).
Definition set_gameSpeed v s := mkState (snake s) (food s) (dx s) (dy s) (score s)
  (highScore s) (gameLoop s) (gameStarted s) (gamePaused s) v (gameOverShown s)
  (intervals s) (nextHandle s) (setItemLog s) (randomCalls s).
Definition set_gameOverShown v s := mkState (snake s) (food s) (dx s) (dy s) (score s)
  (highScore s) (gameLoop s) (gameStarted s) (gamePaused s) (gameSpeed s) v
  (intervals s) (nextHandle s) (setItemLog s) (randomCalls s).
Definition set_intervals v s := mkState (snake s) (food s) (dx s) (dy s) (score s)
  (highScore s) (gameLoop s) (gameStarted s) (gamePaused s) (gameSpeed s)
  (gameOverShown s) v (nextHandle s) (setItemLog s) (randomCalls s).
Definition set_nextHandle v s := mkState (snake s) (food s) (dx s) (dy s) (score s)
  (highScore s) (gameLoop s) (gameStarted s) (gamePaused s) (gameSpeed s)
  (gameOverShown s) (intervals s) v (setItemLog s) (randomCalls s).
Definition set_setItemLog v s := mkState (snake s) (food s) (dx s) (dy s) (score s)
  (highScore s) (gameLoop s) (gameStarted s) (gamePaused s) (gameSpeed s)
  (gameOverShown s) (intervals s) (nextHandle s) v (randomCalls s).
Definition set_randomCalls v s := mkState (snake s) (food s) (dx s) (dy s) (score s)
  (highScore s) (gameLoop s) (gameStarted s) (gamePaused s) (gameSpeed s)
  (gameOverShown s) (intervals s) (nextHandle s) (setItemLog s) v.

(** The four phases of the specification, read off the two flags and the
    game-over banner: the banner is what tells a finished game from one that
    has not been started. *)
Inductive Phase := Idle | Running | Paused | Ended.

Definition phase (s : State) : Phase :=
  if gameStarted s then (if gamePaused s then Paused else Running)
  else if gameOverShown s then Ended else Idle.

(** ** The page: timers, storage *)

(** [setInterval(gameUpdate, delay)]: a new active timer; the caller stores
    the handle in [gameLoop]. *)
Definition setInterval (delay : Z) (s : State) : State :=
  let h := nextHandle s in
  set_gameLoop (Some h)
    (set_nextHandle (S h) (set_intervals ((h, delay) :: intervals s) s)).

(** [clearInterval(h)]: the timer [h] is cancelled; [null] and stale handles
    cancel nothing. *)
Definition clearInterval (h : option nat) (s : State) : State :=
  match h with
  | None => s
  | Some n => set_intervals (filter (fun t => negb (Nat.eqb (fst t) n)) (intervals s)) s
  end.

Definition timer_active (h : nat) (s : State) : bool :=
  existsb (fun t => Nat.eqb (fst t) h) (intervals s).

(** [localStorage.setItem('snakeHighScore', v)]. *)
Definition setItem (v : Z) (s : State) : State := set_setItemLog (v :: setItemLog s) s.

Inductive Key := ArrowUp | ArrowDown | ArrowLeft | ArrowRight | Space | OtherKey.

(** What can happen to the page: a timer fires, a key goes down, one of the
    three buttons is clicked. *)
Inductive Event :=
| TimerFire (h : nat)
| Keydown (k : Key)
| ClickStart
| ClickPause
| ClickRestart.

Definition bind {A B} (o : option A) (f : A -> option B) : option B :=
  match o with Some a => f a | None => None end.
Notation "v <- o ;; k" := (bind o (fun v => k))
  (at level 61, o at next level, right associativity).

(** ** Sample data

    A 400-pixel canvas (a 20 by 20 board) and a short game on it: the page
    loads, the game is started with the food right in front of the head,
    the first tick eats it, the snake then runs into the right wall. *)

Definition sample_width : Z := 400.

(** Food at (0,0) when the page loads, at (11,10) at the start, at (0,0)
    after that. *)
Definition food_ahead (n : nat) : Q :=
  match n with
  | 2%nat => 11 # 20
  | 3%nat => 1 # 2
  | _ => 0
  end.

(** A generator that goes through the 400 cells of the board over and over. *)
Definition cycling (n : nat) : Q :=
  let k := Z.of_nat n / 2 in
  (if Z.even (Z.of_nat n) then k mod 20 else (k / 20) mod 20) # 20.

Definition loaded_sample : State :=
  {| snake := [mkCell 10 10; mkCell 9 10; mkCell 8 10]; food := mkCell 0 0;
     dx := 1; dy := 0; score := 0; highScore := 0; gameLoop := None;
     gameStarted := false; gamePaused := false; gameSpeed := 120;
     gameOverShown := false; intervals := []; nextHandle := 0%nat;
     setItemLog := []; randomCalls := 2%nat |}.

Definition running_sample : State :=
  {| snake := [mkCell 10 10; mkCell 9 10; mkCell 8 10]; food := mkCell 11 10;
     dx := 1; dy := 0; score := 0; highScore := 0; gameLoop := Some 0%nat;
     gameStarted := true; gamePaused := false; gameSpeed := 120;
     gameOverShown := false; intervals := [(0%nat, 120)]; nextHandle := 1%nat;
     setItemLog := []; randomCalls := 4%nat |}.

Definition eaten_sample : State :=
  {| snake := [mkCell 11 10; mkCell 10 10; mkCell 9 10; mkCell 8 10];
     food := mkCell 0 0;
     dx := 1; dy := 0; score := 10; highScore := 10; gameLoop := Some 1%nat;
     gameStarted := true; gamePaused := false; gameSpeed := 118;
     gameOverShown := false; intervals := [(1%nat, 118)]; nextHandle := 2%nat;
     setItemLog := [10]; randomCalls := 6%nat |}.

Definition ended_sample : State :=
  {| snake := [mkCell 19 10; mkCell 18 10; mkCell 17 10; mkCell 16 10];
     food := mkCell 0 0;
     dx := 1; dy := 0; score := 10; highScore := 10; gameLoop := Some 1%nat;
     gameStarted := false; gamePaused := false; gameSpeed := 118;
     gameOverShown := true; intervals := []; nextHandle := 2%nat;
     setItemLog := [10]; randomCalls := 6%nat |}.

(** The ended game after the restart button, and after the start button. *)
Definition restarted_sample : State :=
  {| snake := [mkCell 10 10; mkCell 9 10; mkCell 8 10]; food := mkCell 0 0;
     dx := 1; dy := 0; score := 0; highScore := 10; gameLoop := Some 1%nat;
     gameStarted := false; gamePaused := false; gameSpeed := 120;
     gameOverShown := false; intervals := []; nextHandle := 2%nat;
     setItemLog := [10]; randomCalls := 8%nat |}.

Definition started_again_sample : State :=
  {| snake := [mkCell 10 10; mkCell 9 10; mkCell 8 10]; food := mkCell 0 0;
     dx := 1; dy := 0; score := 0; highScore := 10; gameLoop := Some 2%nat;
     gameStarted := true; gamePaused := false; gameSpeed := 118;
     gameOverShown := false; intervals := [(2%nat, 118)]; nextHandle := 3%nat;
     setItemLog := [10]; randomCalls := 8%nat |}.

(** What a call of [update] makes of the loaded page, were one to happen. *)
Definition idle_ticked_sample : State :=
  {| snake := [mkCell 11 10; mkCell 10 10; mkCell 9 10]; food := mkCell 0 0;
     dx := 1; dy := 0; score := 0; highScore := 0; gameLoop := None;
     gameStarted := false; gamePaused := false; gameSpeed := 120;
     gameOverShown := false; intervals := []; nextHandle := 0%nat;
     setItemLog := []; randomCalls := 2%nat |}.

(** The restarted game after the start button. *)
Definition restarted_started_sample : State :=
  {| snake := [mkCell 10 10; mkCell 9 10; mkCell 8 10]; food := mkCell 0 0;
     dx := 1; dy := 0; score := 0; highScore := 10; gameLoop := Some 2%nat;
     gameStarted := true; gamePaused := false; gameSpeed := 120;
     gameOverShown := false; intervals := [(2%nat, 120)]; nextHandle := 3%nat;
     setItemLog := [10]; randomCalls := 10%nat |}.

(** On a 40-pixel canvas, a 2 by 2 board: the snake on three cells, the
    food on the fourth, right in front of the head. *)
Definition last_cell_sample : State :=
  {| snake := [mkCell 0 0; mkCell 0 1; mkCell 1 1]; food := mkCell 1 0;
     dx := 1; dy := 0; score := 0; highScore := 0; gameLoop := Some 0%nat;
     gameStarted := true; gamePaused := false; gameSpeed := 120;
     gameOverShown := false; intervals := [(0%nat, 120)]; nextHandle := 1%nat;
     setItemLog := []; randomCalls := 4%nat |}.

(** The events of the sample game up to the wall. *)
Definition sample_game : list Event :=
  ClickStart :: TimerFire 0 :: repeat (TimerFire 1) 9.

(** ** The script *)

Section Game.

Variable canvas_width : Z.               (* canvas.width *)
Variable Math_random : nat -> Q.         (* the successive results of Math.random() *)
Variable storedHighScore : option Z.     (* localStorage.getItem('snakeHighScore') *)

Definition GRID_SIZE : Z := 20.
Definition TILE_COUNT : Q := inject_Z canvas_width / inject_Z GRID_SIZE.

Definition initialSnake : list Cell := [mkCell 10 10; mkCell 9 10; mkCell 8 10].

(** Recursion of the source: a candidate on the snake is rejected by calling
    [generateFood] again. *)
Fixpoint generateFood (fuel : nat) (s : State) : option State :=
  match fuel with
  | O => None
  | S fuel' =>
    let n := randomCalls s in
    let s := set_food (mkCell (Qfloor (Math_random n * TILE_COUNT))
                              (Qfloor (Math_random (S n) * TILE_COUNT))) s in
    let s := set_randomCalls (S (S n)) s in
    if existsb (fun segment => (x segment =? x (food s)) && (y segment =? y (food s)))
               (snake s)
    then generateFood fuel' s
    else Some s
  end.

Definition initGame (fuel : nat) (s : State) : option State :=
  let s := set_snake initialSnake s in
  let s := set_dir 1 0 s in
  let s := set_score 0 s in
  let s := set_gameOverShown false s in
  generateFood fuel s.

Definition endGame (s : State) : State :=
  let s := clearInterval (gameLoop s) s in
  let s := set_gameStarted false s in
  set_gameOverShown true s.

(** [snake[0]] of an empty array is [undefined], and reading its [x] throws:
    that is the [None] of the first branch. *)
Definition update (fuel : nat) (s : State) : option State :=
  if gamePaused s then Some s else
  match snake s with
  | [] => None
  | s0 :: _ =>
    let head := mkCell (x s0 + dx s) (y s0 + dy s) in
    if (x head <? 0) || Qle_bool TILE_COUNT (inject_Z (x head))
       || (y head <? 0) || Qle_bool TILE_COUNT (inject_Z (y head))
    then Some (endGame s)
    else if existsb (fun segment => (x head =? x segment) && (y head =? y segment)) (snake s)
    then Some (endGame s)
    else
      let s := set_snake (head :: snake s) s in
      if (x head =? x (food s)) && (y head =? y (food s)) then
        let s := set_score (score s + 10) s in
        let s := if highScore s <? score s
                 then setItem (score s) (set_highScore (score s) s)
                 else s in
        s <- generateFood fuel s ;;
        Some (if 70 <? gameSpeed s then
                let s := set_gameSpeed (gameSpeed s - 2) s in
                let s := clearInterval (gameLoop s) s in
                setInterval (gameSpeed s) s
              else s)
      else Some (set_snake (removelast (snake s)) s)
  end.

Definition gameUpdate (fuel : nat) (s : State) : option State := update fuel s.

Definition startGame (fuel : nat) (s : State) : option State :=
  if negb (gameStarted s) then
    let s := set_gameStarted true s in
    let s := set_gamePaused false s in
    s <- initGame fuel s ;;
    Some (setInterval (gameSpeed s) s)
  else Some s.

Definition togglePause (s : State) : State :=
  if negb (gameStarted s) then s
  else set_gamePaused (negb (gamePaused s)) s.

Definition restartGame (fuel : nat) (s : State) : option State :=
  let s := clearInterval (gameLoop s) s in
  let s := set_gameStarted false s in
  let s := set_gamePaused false s in
  let s := set_gameSpeed 120 s in
  initGame fuel s.

(** The keydown listener. *)
Definition keydown (k : Key) (s : State) : State :=
  if negb (gameStarted s) then s else
  match k with
  | ArrowUp => if dy s =? 0 then set_dir 0 (-1) s else s
  | ArrowDown => if dy s =? 0 then set_dir 0 1 s else s
  | ArrowLeft => if dx s =? 0 then set_dir (-1) 0 s else s
  | ArrowRight => if dx s =? 0 then set_dir 1 0 s else s
  | Space => togglePause s
  | OtherKey => s
  end.

(** [localStorage.getItem('snakeHighScore') || 0], as a number. *)
Definition initialHighScore : Z :=
  match storedHighScore with Some v => v | None => 0 end.

(** The variables as the script declares them; [food] is [{}] there and is
    assigned by [generateFood] before anything reads it. *)
Definition declared : State :=
  {| snake := []; food := mkCell 0 0; dx := 0; dy := 0; score := 0;
     highScore := initialHighScore;
     gameLoop := None; gameStarted := false; gamePaused := false; gameSpeed := 120;
     gameOverShown := false; intervals := []; nextHandle := O; setItemLog := [];
     randomCalls := O |}.

(** Loading the page runs the script to its end: the declarations, then
    [initGame()]. *)
Definition pageLoad (fuel : nat) : option State := initGame fuel declared.

(** One event.  A timer that is not active does not fire; the pause button
    is disabled exactly while [togglePause] would return at once, so its
    click is [togglePause] in both cases. *)
Definition step (fuel : nat) (e : Event) (s : State) : option State :=
  match e with
  | TimerFire h => if timer_active h s then gameUpdate fuel s else Some s
  | Keydown k => Some (keydown k s)
  | ClickStart => startGame fuel s
  | ClickPause => Some (togglePause s)
  | ClickRestart => restartGame fuel s
  end.

Fixpoint run (fuel : nat) (es : list Event) (s : State) : option State :=
  match es with
  | [] => Some s
  | e :: es' => s' <- step fuel e s ;; run fuel es' s'
  end.

(** The states the page can be in. *)
Inductive reachable : State -> Prop :=
| reach_load fuel s : pageLoad fuel = Some s -> reachable s
| reach_step fuel e s s' : reachable s -> step fuel e s = Some s' -> reachable s'.


(** ** Vocabulary of the properties *)

(** A cell is on the board when both coordinates are in [[0, TILE_COUNT)]. *)
Definition in_board (c : Cell) : Prop :=
  0 <= x c /\ (inject_Z (x c) < TILE_COUNT)%Q /\
  0 <= y c /\ (inject_Z (y c) < TILE_COUNT)%Q.

(** The cell that two calls to [Math.random], the [n]-th and the next, make. *)
Definition candidate (n : nat) : Cell :=
  mkCell (Qfloor (Math_random n * TILE_COUNT)) (Qfloor (Math_random (S n) * TILE_COUNT)).

(** [Math.random()] is in [[0, 1)]. *)
Definition unit_oracle : Prop := forall n, (0 <= Math_random n < 1)%Q.

(** Where the head goes next, [s0] being the head segment. *)
Definition nextHead (s0 : Cell) (s : State) : Cell := mkCell (x s0 + dx s) (y s0 + dy s).

(** The part of [update] between the food test and the call to
    [generateFood]: the head has been prepended, the score and the high
    score are brought up to date. *)
Definition scored (head : Cell) (s : State) : State :=
  let s := set_snake (head :: snake s) s in
  let s := set_score (score s + 10) s in
  if highScore s <? score s then setItem (score s) (set_highScore (score s) s) else s.

(** The end of the food branch of [update]: the timer is replaced by a
    faster one while the interval is above 70. *)
Definition accelerate (s : State) : State :=
  if 70 <? gameSpeed s then
    let s := set_gameSpeed (gameSpeed s - 2) s in
    let s := clearInterval (gameLoop s) s in
    setInterval (gameSpeed s) s
  else s.

(** The three outcomes of a tick. *)
Definition grows (head : Cell) (s s' : State) : Prop :=
  snake s' = head :: snake s /\ score s' = score s + 10 /\ phase s' = Running.

Definition moves (head : Cell) (s s' : State) : Prop :=
  snake s' = head :: removelast (snake s) /\
  length (snake s') = length (snake s) /\
  score s' = score s /\ food s' = food s /\ phase s' = Running.

Definition ends (s s' : State) : Prop :=
  phase s' = Ended /\ snake s' = snake s /\ score s' = score s /\ food s' = food s.

(** The four directions of the arrow keys and their deltas. *)
Inductive Direction := Up | Down | Left | Right.

Definition delta (d : Direction) : Z * Z :=
  match d with Up => (0, -1) | Down => (0, 1) | Left => (-1, 0) | Right => (1, 0) end.

Definition opposite (d : Direction) : Direction :=
  match d with Up => Down | Down => Up | Left => Right | Right => Left end.

Definition arrow (d : Direction) : Key :=
  match d with Up => ArrowUp | Down => ArrowDown | Left => ArrowLeft | Right => ArrowRight end.

Definition heading (s : State) : Z * Z := (dx s, dy s).

(** Invariants of the reachable states. *)
Definition timer_ok (s : State) : Prop :=
  if gameStarted s
  then exists h, gameLoop s = Some h /\ intervals s = [(h, gameSpeed s)]
  else intervals s = [].

Definition inv (s : State) : Prop :=
  (3 <= length (snake s))%nat /\ NoDup (snake s) /\ ~ In (food s) (snake s) /\
  (exists d, heading s = delta d) /\ timer_ok s.

(** The head is about to leave the board or to run into the snake. *)
Definition crashed (s : State) : Prop :=
  exists s0 tl, snake s = s0 :: tl /\
    (~ in_board (nextHead s0 s) \/ In (nextHead s0 s) (snake s)).

(** One event, as a labelled relation: what [step] can do to a state. *)
Inductive transition (fuel : nat) (s : State) : Event -> State -> Prop :=
| t_ignored e : transition fuel s e s
| t_end h s0 tl :
    timer_active h s = true -> gamePaused s = false -> snake s = s0 :: tl ->
    ~ in_board (nextHead s0 s) \/ In (nextHead s0 s) (snake s) ->
    transition fuel s (TimerFire h) (endGame s)
| t_move h s0 tl :
    timer_active h s = true -> gamePaused s = false -> snake s = s0 :: tl ->
    in_board (nextHead s0 s) -> ~ In (nextHead s0 s) (snake s) ->
    nextHead s0 s <> food s ->
    transition fuel s (TimerFire h) (set_snake (nextHead s0 s :: removelast (snake s)) s)
| t_eat h s0 tl sf :
    timer_active h s = true -> gamePaused s = false -> snake s = s0 :: tl ->
    in_board (nextHead s0 s) -> ~ In (nextHead s0 s) (snake s) ->
    nextHead s0 s = food s ->
    generateFood fuel (scored (nextHead s0 s) s) = Some sf ->
    transition fuel s (TimerFire h) (accelerate sf)
| t_turn d :
    gameStarted s = true -> heading s <> delta d -> heading s <> delta (opposite d) ->
    transition fuel s (Keydown (arrow d)) (set_dir (fst (delta d)) (snd (delta d)) s)
| t_pause_key :
    gameStarted s = true ->
    transition fuel s (Keydown Space) (set_gamePaused (negb (gamePaused s)) s)
| t_pause_click :
    gameStarted s = true ->
    transition fuel s ClickPause (set_gamePaused (negb (gamePaused s)) s)
| t_start sf :
    gameStarted s = false ->
    initGame fuel (set_gamePaused false (set_gameStarted true s)) = Some sf ->
    transition fuel s ClickStart (setInterval (gameSpeed sf) sf)
| t_restart sf :
    restartGame fuel s = Some sf ->
    transition fuel s ClickRestart sf.

Ltac transition_cases T :=
  destruct T as [ e | h s0 tl Hact Hp Hs Hhit | h s0 tl Hact Hp Hs Hin Hfree Hne
                | h s0 tl sf Hact Hp Hs Hin Hfree Heq Hgen | d Hg Hd Ho | Hg | Hg
                | sf Hg Hinit | sf Hre ].

(** A run of the page, newest state first. *)
Inductive execution : list State -> Prop :=
| exec_load fuel s : pageLoad fuel = Some s -> execution [s]
| exec_step fuel e s s' tr :
    execution (s :: tr) -> step fuel e s = Some s' -> execution (s' :: s :: tr).

(** The highest score of the states of a run. *)
Definition best (tr : list State) : Z := fold_right (fun s m => Z.max (score s) m) 0 tr.

(** The cells of the board, column by column, and a generator that sooner
    or later proposes each of them. *)
Definition columns : list Z :=
  map Z.of_nat (seq 0 (Z.to_nat ((canvas_width + GRID_SIZE - 1) / GRID_SIZE))).

Definition board_cells : list Cell :=
  map (fun p => mkCell (fst p) (snd p)) (list_prod columns columns).

Definition fair_from (n : nat) : Prop :=
  forall c, in_board c -> exists k, candidate (n + 2 * k) = c.

(** ** Vocabulary of the further properties *)

(** Two cells are neighbours on the grid. *)
Definition adjacent (a b : Cell) : Prop :=
  Z.abs (x a - x b) + Z.abs (y a - y b) = 1.

(** Each cell of the list is a neighbour of the next one. *)
Fixpoint chain (l : list Cell) : Prop :=
  match l with
  | a :: tl => match tl with b :: _ => adjacent a b /\ chain tl | [] => True end
  | [] => True
  end.

Definition perpendicular (a b : Direction) : bool :=
  match a, b with
  | Up, Left | Up, Right | Down, Left | Down, Right
  | Left, Up | Left, Down | Right, Up | Right, Down => true
  | _, _ => false
  end.

(** The values written to the storage, newest first, each above the ones
    written before it. *)
Fixpoint rising (log : list Z) : Prop :=
  match log with
  | v :: tl => match tl with w :: _ => w < v /\ rising tl | [] => True end
  | [] => True
  end.

(** The moves between phases that the script makes. *)
Definition phase_move (e : Event) (p p' : Phase) : Prop :=
  match e with
  | ClickStart => (p = Idle \/ p = Ended) /\ p' = Running
  | ClickRestart => p' = Idle
  | ClickPause | Keydown Space => (p = Running /\ p' = Paused) \/ (p = Paused /\ p' = Running)
  | TimerFire _ => p = Running /\ p' = Ended
  | Keydown _ => False
  end.

(** ** Drawing

    [draw()] as the list of the calls it makes on the 2D context, in order;
    assignments to the context's properties are calls too.  [arc] always
    runs from angle 0 to [Math.PI * 2], a full circle; the two angles are
    not kept. *)

Inductive CanvasOp :=
| fillStyle (c : String.string)
| strokeStyle (c : String.string)
| lineWidth (w : Q)
| shadowBlur (b : Z)
| shadowColor (c : String.string)
| fillRect (px py w h : Z)
| strokeRect (px py w h : Z)
| beginPath
| moveTo (px py : Z)
| lineTo (px py : Z)
| stroke
| arc (cx cy r : Z)
| fill.

Variable canvas_height : Z.              (* canvas.height *)

(** [for (let i = 0; i <= TILE_COUNT; i++)]: [i] runs over 0, ..., the
    integer part of [TILE_COUNT]. *)
Definition gridLines : list CanvasOp :=
  flat_map (fun i =>
      [ beginPath; moveTo (i * GRID_SIZE) 0; lineTo (i * GRID_SIZE) canvas_height; stroke;
        beginPath; moveTo 0 (i * GRID_SIZE); lineTo canvas_width (i * GRID_SIZE); stroke ])
    (map Z.of_nat (seq 0 (Z.to_nat (Qfloor TILE_COUNT + 1)))).

(** The callback of [snake.forEach]. *)
Definition drawSegment (segment : Cell) (index : nat) : list CanvasOp :=
  (if Nat.eqb index 0
   then [fillStyle "#2196F3"; shadowBlur 10; shadowColor "#2196F3"]
   else [fillStyle "#64B5F6"; shadowBlur 5; shadowColor "#64B5F6"])%string
  ++ [ fillRect (x segment * GRID_SIZE + 1) (y segment * GRID_SIZE + 1)
                (GRID_SIZE - 2) (GRID_SIZE - 2);
       strokeStyle (if Nat.eqb index 0 then "#1976D2" else "#42A5F5")%string;
       lineWidth 2;
       strokeRect (x segment * GRID_SIZE + 1) (y segment * GRID_SIZE + 1)
                  (GRID_SIZE - 2) (GRID_SIZE - 2) ].

Fixpoint forEach (l : list Cell) (index : nat) : list CanvasOp :=
  match l with
  | [] => []
  | segment :: tl => drawSegment segment index ++ forEach tl (S index)
  end.

Definition draw (s : State) : list CanvasOp :=
  [ fillStyle "#f0f0f0"%string; fillRect 0 0 canvas_width canvas_height;
    strokeStyle "#e0e0e0"%string; lineWidth (1 # 2) ]
  ++ gridLines
  ++ forEach (snake s) 0
  ++ [ shadowBlur 0;
       fillStyle "#FFC107"%string; shadowBlur 15; shadowColor "#FFC107"%string;
       beginPath;
       arc (x (food s) * GRID_SIZE + GRID_SIZE / 2)
           (y (food s) * GRID_SIZE + GRID_SIZE / 2)
           (GRID_SIZE / 2 - 2);
       fill;
       shadowBlur 0 ].

(** A region of the canvas, by its edges. *)
Record Box := mkBox { x_min : Z; y_min : Z; x_max : Z; y_max : Z }.

(** What a call covers: a rectangle itself, a full circle its bounding
    square, a point of a path itself. *)
Definition op_box (o : CanvasOp) : list Box :=
  match o with
  | fillRect px py w h | strokeRect px py w h => [mkBox px py (px + w) (py + h)]
  | arc cx cy r => [mkBox (cx - r) (cy - r) (cx + r) (cy + r)]
  | moveTo px py | lineTo px py => [mkBox px py px py]
  | _ => []
  end.

Definition in_canvas (b : Box) : Prop :=
  0 <= x_min b <= x_max b /\ x_max b <= canvas_width /\
  0 <= y_min b <= y_max b /\ y_max b <= canvas_height.



(** The tile of a cell, and the part of it a segment or the food covers. *)
Definition tile (c : Cell) : Box :=
  mkBox (x c * GRID_SIZE) (y c * GRID_SIZE) (x c * GRID_SIZE + GRID_SIZE)
        (y c * GRID_SIZE + GRID_SIZE).



Definition inside (a b : Box) : Prop :=
  x_min b <= x_min a /\ x_max a <= x_max b /\ y_min b <= y_min a /\ y_max a <= y_max b.

(** ** Basic facts: cells, the board, the candidates of the food placement *)

Lemma cell_eq_iff (a b : Cell) : a = b <-> x a = x b /\ y a = y b.
Proof.
  split; [intros ->; auto|].
  destruct a, b; simpl; intros [-> ->]; reflexivity.
Qed.

Lemma cell_eqb_eq (a b : Cell) : cell_eqb a b = true <-> a = b.
Proof.
  unfold cell_eqb. rewrite andb_true_iff, !Z.eqb_eq. symmetry. apply cell_eq_iff.
Qed.

Lemma cell_eq_dec (a b : Cell) : {a = b} + {a <> b}.
Proof.
  destruct (cell_eqb a b) eqn:E; [left | right].
  - now apply cell_eqb_eq.
  - intros H. apply cell_eqb_eq in H. congruence.
Qed.

(** The two loops over the snake, [for (let segment of snake)], are
    membership tests. *)
Lemma hits_snake_iff (c : Cell) (l : list Cell) :
  existsb (fun segment => (x c =? x segment) && (y c =? y segment)) l = true <-> In c l.
Proof.
  rewrite existsb_exists. split.
  - intros [d [Hd E]]. apply andb_true_iff in E. rewrite !Z.eqb_eq in E.
    assert (c = d) by (apply cell_eq_iff; exact E). now subst.
  - intros H. exists c. split; [exact H|]. now rewrite !Z.eqb_refl.
Qed.

Lemma on_snake_iff (c : Cell) (l : list Cell) :
  existsb (fun segment => (x segment =? x c) && (y segment =? y c)) l = true <-> In c l.
Proof.
  rewrite <- hits_snake_iff. unfold existsb.
  induction l as [|d l IH]; [reflexivity|].
  rewrite (Z.eqb_sym (x d)), (Z.eqb_sym (y d)).
  rewrite !orb_true_iff, IH. reflexivity.
Qed.

Lemma below_TILE_COUNT (v : Z) :
  (inject_Z v < TILE_COUNT)%Q <-> GRID_SIZE * v < canvas_width.
Proof.
  unfold TILE_COUNT, GRID_SIZE, Qlt, Qdiv, Qmult, Qinv, inject_Z; cbn -[Z.mul]. lia.
Qed.

Lemma beyond_TILE_COUNT (v : Z) :
  Qle_bool TILE_COUNT (inject_Z v) = true <-> canvas_width <= GRID_SIZE * v.
Proof.
  rewrite Qle_bool_iff.
  unfold TILE_COUNT, GRID_SIZE, Qle, Qdiv, Qmult, Qinv, inject_Z; cbn -[Z.mul]. lia.
Qed.

Lemma in_board_Z (c : Cell) :
  in_board c <->
  0 <= x c /\ GRID_SIZE * x c < canvas_width /\
  0 <= y c /\ GRID_SIZE * y c < canvas_width.
Proof. unfold in_board. rewrite !below_TILE_COUNT. reflexivity. Qed.

(** The wall test of [update] fails exactly on the cells of the board. *)
Lemma wall_test_false (c : Cell) :
  (x c <? 0) || Qle_bool TILE_COUNT (inject_Z (x c))
  || (y c <? 0) || Qle_bool TILE_COUNT (inject_Z (y c)) = false <-> in_board c.
Proof.
  rewrite in_board_Z, !orb_false_iff, !Z.ltb_ge.
  split.
  - intros [[[Hx Hx'] Hy] Hy']. repeat split; try assumption.
    + destruct (Z_lt_le_dec (GRID_SIZE * x c) canvas_width) as [L|L]; [exact L|].
      apply beyond_TILE_COUNT in L. congruence.
    + destruct (Z_lt_le_dec (GRID_SIZE * y c) canvas_width) as [L|L]; [exact L|].
      apply beyond_TILE_COUNT in L. congruence.
  - intros (Hx & Hx' & Hy & Hy'). repeat split; try assumption.
    + destruct (Qle_bool TILE_COUNT (inject_Z (x c))) eqn:E; [|reflexivity].
      apply beyond_TILE_COUNT in E. lia.
    + destruct (Qle_bool TILE_COUNT (inject_Z (y c))) eqn:E; [|reflexivity].
      apply beyond_TILE_COUNT in E. lia.
Qed.

Lemma in_board_dec (c : Cell) : {in_board c} + {~ in_board c}.
Proof.
  destruct ((x c <? 0) || Qle_bool TILE_COUNT (inject_Z (x c))
            || (y c <? 0) || Qle_bool TILE_COUNT (inject_Z (y c))) eqn:E.
  - right. intros H. apply wall_test_false in H. congruence.
  - left. now apply wall_test_false.
Qed.

Lemma floor_scaled_range (r : Q) :
  0 < canvas_width -> (0 <= r < 1)%Q ->
  0 <= Qfloor (r * TILE_COUNT) /\ (inject_Z (Qfloor (r * TILE_COUNT)) < TILE_COUNT)%Q.
Proof.
  intros Hw [Hr0 Hr1].
  assert (HT : (0 < TILE_COUNT)%Q).
  { change 0%Q with (inject_Z 0). apply below_TILE_COUNT. unfold GRID_SIZE. lia. }
  split.
  - change 0 with (Qfloor 0). apply Qfloor_resp_le.
    apply Qmult_le_0_compat; [exact Hr0 | now apply Qlt_le_weak].
  - apply Qle_lt_trans with (r * TILE_COUNT)%Q; [apply Qfloor_le|].
    rewrite <- (Qmult_1_l TILE_COUNT) at 2.
    now apply Qmult_lt_compat_r.
Qed.

Lemma candidate_in_board (n : nat) :
  0 < canvas_width -> unit_oracle -> in_board (candidate n).
Proof.
  intros Hw Hr. unfold in_board, candidate; simpl.
  destruct (floor_scaled_range (Math_random n) Hw (Hr n)).
  destruct (floor_scaled_range (Math_random (S n)) Hw (Hr (S n))).
  auto.
Qed.


(** ** Food placement *)

Lemma generateFood_unfold (fuel : nat) (s : State) :
  generateFood (S fuel) s =
  let s1 := set_randomCalls (S (S (randomCalls s))) (set_food (candidate (randomCalls s)) s) in
  if existsb (fun segment => (x segment =? x (food s1)) && (y segment =? y (food s1)))
             (snake s1)
  then generateFood fuel s1 else Some s1.
Proof. reflexivity. Qed.

(** What a call that returns has done: it rejected [k] candidates that were
    on the snake, kept the next one, and touched nothing but [food] and the
    generator. *)
Lemma generateFood_inv (fuel : nat) : forall s s',
  generateFood fuel s = Some s' ->
  exists k, (k < fuel)%nat /\
    s' = set_randomCalls (randomCalls s + 2 * (k + 1))
           (set_food (candidate (randomCalls s + 2 * k)) s) /\
    ~ In (candidate (randomCalls s + 2 * k)) (snake s) /\
    forall j, (j < k)%nat -> In (candidate (randomCalls s + 2 * j)) (snake s).
Proof.
  induction fuel as [|fuel IH]; intros s s' H; [discriminate|].
  rewrite generateFood_unfold in H. cbv zeta in H.
  set (s1 := set_randomCalls _ _) in H.
  destruct (existsb _ (snake s1)) eqn:E.
  - apply on_snake_iff in E. simpl in E.
    apply IH in H. destruct H as (k & Hk & -> & Hfree & Hrej).
    exists (S k). simpl randomCalls in *. simpl snake in *.
    replace (randomCalls s + 2 * S k)%nat with (S (S (randomCalls s)) + 2 * k)%nat by lia.
    repeat split; [lia | | exact Hfree |].
    + unfold set_randomCalls, set_food; simpl. f_equal. lia.
    + intros [|j] Hj.
      * now rewrite Nat.mul_0_r, Nat.add_0_r.
      * replace (randomCalls s + 2 * S j)%nat with (S (S (randomCalls s)) + 2 * j)%nat by lia.
        apply Hrej. lia.
  - injection H as <-. exists O.
    rewrite Nat.mul_0_r, Nat.add_0_r.
    repeat split; [lia | | | intros j Hj; lia].
    + unfold s1. f_equal. lia.
    + intros Hin. rewrite (proj2 (on_snake_iff (food s1) (snake s1)) Hin) in E.
      discriminate.
Qed.

(** A candidate off the snake within the recursion depth makes the call
    return. *)
Lemma generateFood_returns (k : nat) : forall s fuel,
  ~ In (candidate (randomCalls s + 2 * k)) (snake s) -> (k < fuel)%nat ->
  exists s', generateFood fuel s = Some s'.
Proof.
  induction k as [|k IH]; intros s [|fuel] Hfree Hk; try lia;
    rewrite generateFood_unfold; cbv zeta;
    set (s1 := set_randomCalls _ _);
    destruct (existsb _ (snake s1)) eqn:E; try (eexists; reflexivity).
  - exfalso. apply on_snake_iff in E. simpl in E.
    now rewrite Nat.mul_0_r, Nat.add_0_r in Hfree.
  - apply IH; [|lia].
    change (randomCalls s1) with (S (S (randomCalls s))). change (snake s1) with (snake s).
    now replace (S (S (randomCalls s)) + 2 * k)%nat with (randomCalls s + 2 * S k)%nat by lia.
Qed.

(** When every candidate is on the snake the call never returns, whatever
    depth it is given. *)
Lemma generateFood_starves (fuel : nat) : forall s,
  (forall k, In (candidate (randomCalls s + 2 * k)) (snake s)) ->
  generateFood fuel s = None.
Proof.
  intros s Hall. destruct (generateFood fuel s) as [s'|] eqn:E; [|reflexivity].
  apply generateFood_inv in E. destruct E as (k & _ & _ & Hfree & _).
  now specialize (Hall k).
Qed.

Lemma generateFood_frame (fuel : nat) (s s' : State) :
  generateFood fuel s = Some s' ->
  snake s' = snake s /\ dx s' = dx s /\ dy s' = dy s /\ score s' = score s /\
  highScore s' = highScore s /\ gameLoop s' = gameLoop s /\
  gameStarted s' = gameStarted s /\ gamePaused s' = gamePaused s /\
  gameSpeed s' = gameSpeed s /\ gameOverShown s' = gameOverShown s /\
  intervals s' = intervals s /\ nextHandle s' = nextHandle s /\
  setItemLog s' = setItemLog s.
Proof.
  intros H. apply generateFood_inv in H. destruct H as (k & _ & -> & _).
  simpl. repeat split.
Qed.

Lemma generateFood_off_snake (fuel : nat) (s s' : State) :
  generateFood fuel s = Some s' -> ~ In (food s') (snake s').
Proof.
  intros H. apply generateFood_inv in H. destruct H as (k & _ & -> & Hfree & _).
  exact Hfree.
Qed.

Lemma generateFood_in_board (fuel : nat) (s s' : State) :
  0 < canvas_width -> unit_oracle ->
  generateFood fuel s = Some s' -> in_board (food s').
Proof.
  intros Hw Hr H. apply generateFood_inv in H. destruct H as (k & _ & -> & _).
  simpl. now apply candidate_in_board.
Qed.


(** ** One tick *)

Lemma update_paused (fuel : nat) (s : State) :
  gamePaused s = true -> update fuel s = Some s.
Proof. intros H. unfold update. now rewrite H. Qed.

Lemma update_eq (fuel : nat) (s : State) (s0 : Cell) (tl : list Cell) :
  gamePaused s = false -> snake s = s0 :: tl ->
  update fuel s =
  let head := nextHead s0 s in
  if (x head <? 0) || Qle_bool TILE_COUNT (inject_Z (x head))
     || (y head <? 0) || Qle_bool TILE_COUNT (inject_Z (y head))
  then Some (endGame s)
  else if existsb (fun segment => (x head =? x segment) && (y head =? y segment)) (snake s)
  then Some (endGame s)
  else if (x head =? x (food s)) && (y head =? y (food s))
  then sf <- generateFood fuel (scored head s) ;; Some (accelerate sf)
  else Some (set_snake (head :: removelast (snake s)) s).
Proof.
  intros Hp Hs. destruct s; simpl in *. subst. reflexivity.
Qed.

Lemma update_wall (fuel : nat) (s : State) (s0 : Cell) (tl : list Cell) :
  gamePaused s = false -> snake s = s0 :: tl ->
  ~ in_board (nextHead s0 s) -> update fuel s = Some (endGame s).
Proof.
  intros Hp Hs Hout. rewrite (update_eq fuel s s0 tl Hp Hs). cbv zeta.
  destruct (_ || _) eqn:E; [reflexivity|].
  apply wall_test_false in E. contradiction.
Qed.

Lemma update_self (fuel : nat) (s : State) (s0 : Cell) (tl : list Cell) :
  gamePaused s = false -> snake s = s0 :: tl ->
  In (nextHead s0 s) (snake s) -> update fuel s = Some (endGame s).
Proof.
  intros Hp Hs Hin. rewrite (update_eq fuel s s0 tl Hp Hs). cbv zeta.
  destruct (_ || _); [reflexivity|].
  now rewrite (proj2 (hits_snake_iff _ _) Hin).
Qed.

Lemma head_on_food_iff (c f : Cell) :
  (x c =? x f) && (y c =? y f) = true <-> c = f.
Proof. apply cell_eqb_eq. Qed.

Lemma update_move (fuel : nat) (s : State) (s0 : Cell) (tl : list Cell) :
  gamePaused s = false -> snake s = s0 :: tl ->
  in_board (nextHead s0 s) -> ~ In (nextHead s0 s) (snake s) ->
  nextHead s0 s <> food s ->
  update fuel s = Some (set_snake (nextHead s0 s :: removelast (snake s)) s).
Proof.
  intros Hp Hs Hin Hfree Hne. rewrite (update_eq fuel s s0 tl Hp Hs). cbv zeta.
  rewrite (proj2 (wall_test_false _) Hin).
  destruct (existsb _ (snake s)) eqn:E; [apply hits_snake_iff in E; contradiction|].
  destruct (_ && _) eqn:F; [apply head_on_food_iff in F; contradiction|].
  reflexivity.
Qed.

Lemma update_eat (fuel : nat) (s : State) (s0 : Cell) (tl : list Cell) :
  gamePaused s = false -> snake s = s0 :: tl ->
  in_board (nextHead s0 s) -> ~ In (nextHead s0 s) (snake s) ->
  nextHead s0 s = food s ->
  update fuel s =
  sf <- generateFood fuel (scored (nextHead s0 s) s) ;; Some (accelerate sf).
Proof.
  intros Hp Hs Hin Hfree Heq. rewrite (update_eq fuel s s0 tl Hp Hs). cbv zeta.
  rewrite (proj2 (wall_test_false _) Hin).
  destruct (existsb _ (snake s)) eqn:E; [apply hits_snake_iff in E; contradiction|].
  now rewrite (proj2 (head_on_food_iff _ _) Heq).
Qed.

(** [step] refines [transition]. *)
Lemma update_transition (fuel h : nat) (s s' : State) :
  timer_active h s = true -> update fuel s = Some s' -> transition fuel s (TimerFire h) s'.
Proof.
  intros Hact H.
  destruct (gamePaused s) eqn:Hp.
  { rewrite (update_paused fuel s Hp) in H. injection H as <-. apply t_ignored. }
  destruct (snake s) as [|s0 tl] eqn:Hs.
  { unfold update in H. rewrite Hp, Hs in H. discriminate. }
  destruct (in_board_dec (nextHead s0 s)) as [Hin|Hout].
  2:{ rewrite (update_wall fuel s s0 tl Hp Hs Hout) in H. injection H as <-.
      apply (t_end fuel s h s0 tl); auto. }
  destruct (in_dec cell_eq_dec (nextHead s0 s) (snake s)) as [Hon|Hfree].
  { rewrite (update_self fuel s s0 tl Hp Hs Hon) in H. injection H as <-.
    apply (t_end fuel s h s0 tl); auto. }
  destruct (cell_eq_dec (nextHead s0 s) (food s)) as [Heq|Hne].
  - rewrite (update_eat fuel s s0 tl Hp Hs Hin Hfree Heq) in H.
    destruct (generateFood fuel (scored (nextHead s0 s) s)) as [sf|] eqn:G; [|discriminate].
    simpl in H. injection H as <-.
    apply (t_eat fuel s h s0 tl sf); auto.
  - rewrite (update_move fuel s s0 tl Hp Hs Hin Hfree Hne) in H. injection H as <-.
    apply (t_move fuel s h s0 tl); auto.
Qed.

Lemma keydown_transition (fuel : nat) (k : Key) (s : State) :
  transition fuel s (Keydown k) (keydown k s).
Proof.
  unfold keydown. destruct (gameStarted s) eqn:Hg; simpl; [|apply t_ignored].
  destruct k; try apply t_ignored.
  - destruct (dy s =? 0) eqn:E; [|apply t_ignored]. apply Z.eqb_eq in E.
    apply (t_turn fuel s Up); [exact Hg| |]; unfold heading; simpl; rewrite E; congruence.
  - destruct (dy s =? 0) eqn:E; [|apply t_ignored]. apply Z.eqb_eq in E.
    apply (t_turn fuel s Down); [exact Hg| |]; unfold heading; simpl; rewrite E; congruence.
  - destruct (dx s =? 0) eqn:E; [|apply t_ignored]. apply Z.eqb_eq in E.
    apply (t_turn fuel s Left); [exact Hg| |]; unfold heading; simpl; rewrite E; congruence.
  - destruct (dx s =? 0) eqn:E; [|apply t_ignored]. apply Z.eqb_eq in E.
    apply (t_turn fuel s Right); [exact Hg| |]; unfold heading; simpl; rewrite E; congruence.
  - unfold togglePause. rewrite Hg. simpl. now apply t_pause_key.
Qed.

Lemma step_transition (fuel : nat) (e : Event) (s s' : State) :
  step fuel e s = Some s' -> transition fuel s e s'.
Proof.
  destruct e as [h|k| | |]; simpl; intros H.
  - destruct (timer_active h s) eqn:Hact.
    + now apply (update_transition fuel h).
    + injection H as <-. apply t_ignored.
  - injection H as <-. apply keydown_transition.
  - unfold startGame in H. destruct (gameStarted s) eqn:Hg; simpl in H.
    + injection H as <-. apply t_ignored.
    + destruct (initGame fuel _) as [sf|] eqn:G; [|discriminate].
      simpl in H. injection H as <-. now apply t_start.
  - injection H as <-. unfold togglePause.
    destruct (gameStarted s) eqn:Hg; simpl; [now apply t_pause_click | apply t_ignored].
  - now apply t_restart.
Qed.


(** ** Invariants of the reachable states *)

Lemma in_removelast (c : Cell) (l : list Cell) : In c (removelast l) -> In c l.
Proof.
  induction l as [|a l IH]; [trivial|].
  destruct l as [|b l]; [intros []|].
  change (removelast (a :: b :: l)) with (a :: removelast (b :: l)).
  intros [->|H]; [now left | right; now apply IH].
Qed.

Lemma NoDup_removelast (l : list Cell) : NoDup l -> NoDup (removelast l).
Proof.
  induction l as [|a l IH]; [trivial|].
  destruct l as [|b l]; [intros _; constructor|].
  change (removelast (a :: b :: l)) with (a :: removelast (b :: l)).
  intros H. inversion H as [|? ? Ha Hl]; subst. constructor.
  - intros Hin. apply Ha. now apply in_removelast.
  - now apply IH.
Qed.

Lemma length_removelast_cons (c : Cell) (l : list Cell) :
  length (removelast (c :: l)) = length l.
Proof.
  revert c. induction l as [|a l IH]; intros c; [reflexivity|].
  change (removelast (c :: a :: l)) with (c :: removelast (a :: l)).
  cbn [length]. now rewrite IH.
Qed.

Lemma initGame_inv (fuel : nat) (s s' : State) :
  initGame fuel s = Some s' ->
  snake s' = initialSnake /\ dx s' = 1 /\ dy s' = 0 /\ score s' = 0 /\
  gameOverShown s' = false /\ ~ In (food s') initialSnake /\
  highScore s' = highScore s /\ gameLoop s' = gameLoop s /\
  gameStarted s' = gameStarted s /\ gamePaused s' = gamePaused s /\
  gameSpeed s' = gameSpeed s /\ intervals s' = intervals s /\
  nextHandle s' = nextHandle s /\ setItemLog s' = setItemLog s.
Proof.
  unfold initGame. intros H.
  pose proof (generateFood_off_snake _ _ _ H) as Hoff.
  apply generateFood_frame in H. simpl in H.
  destruct H as (Hs & ? & ? & ? & ? & ? & ? & ? & ? & ? & ? & ? & ?).
  rewrite Hs in Hoff. repeat split; assumption.
Qed.

Lemma clearInterval_timer_ok (s : State) :
  timer_ok s -> intervals (clearInterval (gameLoop s) s) = [].
Proof.
  unfold timer_ok, clearInterval. destruct (gameStarted s).
  - intros (h & Hl & Hi). rewrite Hl. cbn [intervals set_intervals]. rewrite Hi.
    cbn [filter fst]. rewrite Nat.eqb_refl. reflexivity.
  - intros Hi. destruct (gameLoop s); [|exact Hi].
    cbn [intervals set_intervals]. rewrite Hi. reflexivity.
Qed.

Lemma timer_active_started (h : nat) (s : State) :
  timer_ok s -> timer_active h s = true -> gameStarted s = true.
Proof.
  unfold timer_ok, timer_active. destruct (gameStarted s); [reflexivity|].
  intros ->. discriminate.
Qed.

Lemma accelerate_frame (s : State) :
  snake (accelerate s) = snake s /\ food (accelerate s) = food s /\
  dx (accelerate s) = dx s /\ dy (accelerate s) = dy s /\
  score (accelerate s) = score s /\ highScore (accelerate s) = highScore s /\
  gameStarted (accelerate s) = gameStarted s /\ gamePaused (accelerate s) = gamePaused s /\
  gameOverShown (accelerate s) = gameOverShown s /\
  setItemLog (accelerate s) = setItemLog s.
Proof.
  unfold accelerate. destruct (70 <? gameSpeed s); [|repeat split].
  cbv zeta. unfold clearInterval, setInterval. simpl.
  destruct (gameLoop s); simpl; repeat split.
Qed.

Lemma accelerate_timer_ok (s : State) :
  gameStarted s = true -> timer_ok s -> timer_ok (accelerate s).
Proof.
  intros Hg Hok. unfold accelerate. destruct (70 <? gameSpeed s); [|exact Hok].
  unfold timer_ok in Hok. rewrite Hg in Hok. destruct Hok as (h & Hl & Hi).
  cbv zeta. unfold timer_ok, clearInterval, setInterval. simpl.
  rewrite Hl. simpl. rewrite Hg, Hi. cbn [filter fst]. rewrite Nat.eqb_refl.
  eexists. split; reflexivity.
Qed.

Lemma scored_frame (c : Cell) (s : State) :
  snake (scored c s) = c :: snake s /\ food (scored c s) = food s /\
  dx (scored c s) = dx s /\ dy (scored c s) = dy s /\
  score (scored c s) = score s + 10 /\
  highScore (scored c s) = Z.max (highScore s) (score s + 10) /\
  gameLoop (scored c s) = gameLoop s /\ gameStarted (scored c s) = gameStarted s /\
  gamePaused (scored c s) = gamePaused s /\ gameSpeed (scored c s) = gameSpeed s /\
  gameOverShown (scored c s) = gameOverShown s /\ intervals (scored c s) = intervals s.
Proof.
  unfold scored. cbv zeta. simpl.
  destruct (highScore s <? score s + 10) eqn:E; simpl; repeat split; trivial.
  - apply Z.ltb_lt in E. lia.
  - apply Z.ltb_ge in E. lia.
Qed.

Lemma clearInterval_frame (h : option nat) (s : State) :
  snake (clearInterval h s) = snake s /\ food (clearInterval h s) = food s /\
  dx (clearInterval h s) = dx s /\ dy (clearInterval h s) = dy s /\
  score (clearInterval h s) = score s /\ highScore (clearInterval h s) = highScore s /\
  gameLoop (clearInterval h s) = gameLoop s /\
  gameStarted (clearInterval h s) = gameStarted s /\
  gamePaused (clearInterval h s) = gamePaused s /\
  gameSpeed (clearInterval h s) = gameSpeed s /\
  gameOverShown (clearInterval h s) = gameOverShown s /\
  setItemLog (clearInterval h s) = setItemLog s.
Proof. destruct h; repeat split. Qed.

Lemma endGame_frame (s : State) :
  snake (endGame s) = snake s /\ food (endGame s) = food s /\
  dx (endGame s) = dx s /\ dy (endGame s) = dy s /\
  score (endGame s) = score s /\ highScore (endGame s) = highScore s /\
  gameStarted (endGame s) = false /\ gamePaused (endGame s) = gamePaused s /\
  gameSpeed (endGame s) = gameSpeed s /\ gameOverShown (endGame s) = true /\
  setItemLog (endGame s) = setItemLog s /\
  intervals (endGame s) = intervals (clearInterval (gameLoop s) s).
Proof.
  unfold endGame. cbv zeta. simpl.
  destruct (clearInterval_frame (gameLoop s) s) as (? & ? & ? & ? & ? & ? & ? & ? & ? & ? & ? & ?).
  repeat split; assumption.
Qed.

Lemma restartGame_inv (fuel : nat) (s s' : State) :
  restartGame fuel s = Some s' ->
  snake s' = initialSnake /\ dx s' = 1 /\ dy s' = 0 /\ score s' = 0 /\
  gameOverShown s' = false /\ ~ In (food s') initialSnake /\
  highScore s' = highScore s /\ gameStarted s' = false /\ gamePaused s' = false /\
  gameSpeed s' = 120 /\ setItemLog s' = setItemLog s /\
  intervals s' = intervals (clearInterval (gameLoop s) s).
Proof.
  unfold restartGame. cbv zeta. intros H. apply initGame_inv in H. simpl in H.
  destruct (clearInterval_frame (gameLoop s) s) as (_ & _ & _ & _ & _ & Eh & _ & _ & _ & _ & _ & El).
  destruct H as (? & ? & ? & ? & ? & ? & Hh & _ & ? & ? & ? & ? & _ & Hl).
  rewrite Eh in Hh. rewrite El in Hl. repeat split; assumption.
Qed.

Lemma initialSnake_NoDup : NoDup initialSnake.
Proof. unfold initialSnake. repeat constructor; simpl; intuition congruence. Qed.

Lemma inv_transition (fuel : nat) (e : Event) (s s' : State) :
  inv s -> transition fuel s e s' -> inv s'.
Proof.
  intros (Hlen & Hnd & Hfood & Hdir & Htimer) T.
  transition_cases T.
  - repeat split; assumption.
  - destruct (endGame_frame s) as (Es & Ef & Edx & Edy & _ & _ & Eg & _ & _ & _ & _ & Ei).
    unfold inv, heading, timer_ok. rewrite Es, Ef, Edx, Edy, Eg, Ei.
    repeat split; try assumption. now apply clearInterval_timer_ok.
  - unfold inv. simpl. rewrite Hs, length_removelast_cons. rewrite Hs in Hlen.
    rewrite <- Hs. repeat split; try assumption.
    + constructor.
      * intros H. apply Hfree. now apply in_removelast.
      * now apply NoDup_removelast.
    + intros [H|H]; [now apply Hne | apply Hfood; now apply in_removelast].
  - pose proof (timer_active_started h s Htimer Hact) as Hg.
    pose proof (generateFood_off_snake _ _ _ Hgen) as Hoff.
    apply generateFood_frame in Hgen.
    destruct (scored_frame (nextHead s0 s) s)
      as (Es & _ & Edx & Edy & _ & _ & El & Eg & _ & Esp & _ & Ei).
    destruct Hgen as (Gs & Gdx & Gdy & _ & _ & Gl & Gg & _ & Gsp & _ & Gi & _).
    destruct (accelerate_frame sf) as (As & Af & Adx & Ady & _).
    unfold inv. rewrite As, Af. unfold heading. rewrite Adx, Ady, Gdx, Gdy, Edx, Edy.
    rewrite Gs, Es in *. repeat split; try assumption.
    + simpl. lia.
    + now constructor.
    + apply accelerate_timer_ok; [congruence|].
      unfold timer_ok in *. rewrite Gg, Eg, Gl, El, Gi, Ei, Gsp, Esp. exact Htimer.
  - unfold inv, heading. simpl. repeat split; try assumption.
    exists d. now destruct d.
  - unfold inv. simpl. repeat split; assumption.
  - unfold inv. simpl. repeat split; assumption.
  - apply initGame_inv in Hinit. simpl in Hinit.
    destruct Hinit as (Is & Idx & Idy & _ & _ & If & _ & _ & Ig & _ & _ & Ii & _).
    unfold inv, heading, setInterval, timer_ok. simpl.
    rewrite Is, Idx, Idy, Ig, Ii. repeat split.
    + simpl. lia.
    + exact initialSnake_NoDup.
    + exact If.
    + now exists Right.
    + unfold timer_ok in Htimer. rewrite Hg in Htimer. rewrite Htimer.
      eexists. split; reflexivity.
  - apply restartGame_inv in Hre.
    destruct Hre as (Is & Idx & Idy & _ & _ & If & _ & Ig & _ & _ & _ & Ii).
    unfold inv, heading, timer_ok. rewrite Is, Idx, Idy, Ig, Ii. repeat split.
    + simpl. lia.
    + exact initialSnake_NoDup.
    + exact If.
    + now exists Right.
    + now apply clearInterval_timer_ok.
Qed.

Lemma inv_pageLoad (fuel : nat) (s : State) : pageLoad fuel = Some s -> inv s.
Proof.
  unfold pageLoad. intros H. apply initGame_inv in H. simpl in H.
  destruct H as (Is & Idx & Idy & _ & _ & If & _ & _ & Ig & _ & _ & Ii & _).
  unfold inv, heading, timer_ok. rewrite Is, Idx, Idy, Ig, Ii. repeat split.
  - simpl. lia.
  - exact initialSnake_NoDup.
  - exact If.
  - now exists Right.
Qed.

Lemma reachable_inv (s : State) : reachable s -> inv s.
Proof.
  induction 1 as [fuel s H | fuel e s s' _ IH H].
  - now apply (inv_pageLoad fuel).
  - apply (inv_transition fuel e s s' IH). now apply step_transition.
Qed.


Lemma initialSnake_in_board : 200 < canvas_width -> Forall in_board initialSnake.
Proof.
  intros Hw. unfold initialSnake.
  repeat constructor; apply in_board_Z; unfold GRID_SIZE; simpl; lia.
Qed.

Lemma snake_on_board_transition (fuel : nat) (e : Event) (s s' : State) :
  200 < canvas_width ->
  Forall in_board (snake s) -> transition fuel s e s' -> Forall in_board (snake s').
Proof.
  intros Hw Hb T.
  transition_cases T; try assumption.
  - destruct (endGame_frame s) as (-> & _). exact Hb.
  - simpl. constructor; [exact Hin|].
    rewrite Forall_forall in *. intros c Hc. apply Hb. now apply in_removelast.
  - apply generateFood_frame in Hgen. destruct Hgen as (Gs & _).
    destruct (accelerate_frame sf) as (-> & _). rewrite Gs.
    destruct (scored_frame (nextHead s0 s) s) as (-> & _). now constructor.
  - apply initGame_inv in Hinit. destruct Hinit as (Is & _).
    simpl. rewrite Is. now apply initialSnake_in_board.
  - apply restartGame_inv in Hre. destruct Hre as (-> & _).
    now apply initialSnake_in_board.
Qed.

Lemma food_on_board_transition (fuel : nat) (e : Event) (s s' : State) :
  0 < canvas_width -> unit_oracle ->
  in_board (food s) -> transition fuel s e s' -> in_board (food s').
Proof.
  intros Hw Hr Hb T.
  transition_cases T; try assumption.
  - destruct (endGame_frame s) as (_ & -> & _). exact Hb.
  - destruct (accelerate_frame sf) as (_ & -> & _).
    now apply (generateFood_in_board fuel (scored (nextHead s0 s) s)).
  - simpl. unfold initGame in Hinit. now apply (generateFood_in_board _ _ _ Hw Hr Hinit).
  - unfold restartGame, initGame in Hre. now apply (generateFood_in_board _ _ _ Hw Hr Hre).
Qed.

Lemma reachable_snake_on_board (s : State) :
  200 < canvas_width -> reachable s -> Forall in_board (snake s).
Proof.
  intros Hw. induction 1 as [fuel s H | fuel e s s' _ IH H].
  - apply initGame_inv in H. destruct H as (-> & _). now apply initialSnake_in_board.
  - apply (snake_on_board_transition fuel e s s' Hw IH). now apply step_transition.
Qed.

Lemma reachable_food_on_board (s : State) :
  0 < canvas_width -> unit_oracle -> reachable s -> in_board (food s).
Proof.
  intros Hw Hr. induction 1 as [fuel s H | fuel e s s' _ IH H].
  - now apply (generateFood_in_board _ _ _ Hw Hr H).
  - apply (food_on_board_transition fuel e s s' Hw Hr IH). now apply step_transition.
Qed.

(** ** The properties of the specification *)

(** C2.  In every state the page can reach, by timer ticks, key presses and
    clicks on the three buttons in any order, each cell of the snake has its
    two coordinates in [[0, TILE_COUNT)] and no two cells of the snake are
    equal.  The canvas is assumed wide enough for the initial snake, whose
    head is in column 10. *)
Theorem snake_on_board_and_distinct (s : State) :
  200 < canvas_width -> reachable s ->
  Forall in_board (snake s) /\ NoDup (snake s).
Proof.
  intros Hw Hr. split.
  - now apply reachable_snake_on_board.
  - now apply reachable_inv in Hr as (_ & Hnd & _).
Qed.

Lemma update_length (fuel : nat) (s s' : State) :
  update fuel s = Some s' ->
  length (snake s') = length (snake s) \/
  (length (snake s') = S (length (snake s)) /\ score s' = score s + 10).
Proof.
  intros H.
  destruct (gamePaused s) eqn:Hp.
  { rewrite (update_paused fuel s Hp) in H. injection H as <-. now left. }
  destruct (snake s) as [|s0 tl] eqn:Hs.
  { unfold update in H. rewrite Hp, Hs in H. discriminate. }
  rewrite <- Hs.
  destruct (in_board_dec (nextHead s0 s)) as [Hin|Hout].
  2:{ rewrite (update_wall fuel s s0 tl Hp Hs Hout) in H. injection H as <-.
      left. now destruct (endGame_frame s) as (-> & _). }
  destruct (in_dec cell_eq_dec (nextHead s0 s) (snake s)) as [Hon|Hfree].
  { rewrite (update_self fuel s s0 tl Hp Hs Hon) in H. injection H as <-.
    left. now destruct (endGame_frame s) as (-> & _). }
  destruct (cell_eq_dec (nextHead s0 s) (food s)) as [Heq|Hne].
  - rewrite (update_eat fuel s s0 tl Hp Hs Hin Hfree Heq) in H.
    destruct (generateFood fuel (scored (nextHead s0 s) s)) as [sf|] eqn:G; [|discriminate].
    simpl in H. injection H as <-. right.
    apply generateFood_frame in G. destruct G as (Gs & _ & _ & Gsc & _).
    destruct (accelerate_frame sf) as (-> & _ & _ & _ & -> & _).
    destruct (scored_frame (nextHead s0 s) s) as (Es & _ & _ & _ & Esc & _).
    rewrite Gs, Es, Gsc, Esc. split; reflexivity.
  - rewrite (update_move fuel s s0 tl Hp Hs Hin Hfree Hne) in H. injection H as <-.
    left. cbn [snake set_snake]. rewrite Hs. cbn [length].
    now rewrite length_removelast_cons.
Qed.

(** C10.  The snake of a reachable state has at least 3 cells.  A tick,
    be it the firing of a timer or a call of [update], leaves its length as
    it is or adds exactly one cell, the latter together with the 10 points
    of a food eaten; a key or the pause button leaves the snake alone; only
    start and restart put the 3-cell snake back. *)
Theorem snake_length_never_shrinks (s : State) :
  reachable s ->
  (3 <= length (snake s))%nat /\
  (forall fuel s', update fuel s = Some s' ->
     length (snake s') = length (snake s) \/
     (length (snake s') = S (length (snake s)) /\ score s' = score s + 10)) /\
  forall fuel e s', step fuel e s = Some s' ->
    match e with
    | TimerFire _ =>
        length (snake s') = length (snake s) \/
        (length (snake s') = S (length (snake s)) /\ score s' = score s + 10)
    | Keydown _ | ClickPause => snake s' = snake s
    | ClickStart | ClickRestart => snake s' = snake s \/ snake s' = initialSnake
    end.
Proof.
  intros Hr. apply reachable_inv in Hr. destruct Hr as (Hlen & _).
  split; [exact Hlen|]. split; [intros fuel s'; apply update_length|].
  intros fuel e s' H.
  destruct e as [h|k| | |].
  - simpl in H. destruct (timer_active h s).
    + now apply (update_length fuel).
    + injection H as <-. now left.
  - simpl in H. injection H as <-. unfold keydown.
    destruct (gameStarted s); simpl; [|reflexivity].
    destruct k; simpl; try reflexivity;
      try (destruct (_ =? 0); reflexivity).
    unfold togglePause. now destruct (negb (gameStarted s)).
  - apply step_transition in H. inversion H as [ | | | | | | | sf Hg Hinit | ]; subst.
    + now left.
    + right. apply initGame_inv in Hinit. now destruct Hinit as (Is & _).
  - simpl in H. injection H as <-. unfold togglePause.
    now destruct (negb (gameStarted s)).
  - right. apply restartGame_inv in H. now destruct H as (Is & _).
Qed.


Lemma endGame_fixed (s : State) :
  intervals s = [] -> gameStarted s = false -> gameOverShown s = true -> endGame s = s.
Proof.
  destruct s as [sn fo vx vy sc hs gl gs gp sp go iv nh lg rc]. simpl.
  intros -> -> ->. unfold endGame, clearInterval. now destruct gl.
Qed.

(** A finished game stays in front of the obstacle that finished it. *)
Lemma ended_crashed (s : State) : reachable s -> phase s = Ended -> crashed s.
Proof.
  intros Hr. induction Hr as [fuel s H | fuel e s s' Hr IH H]; intros Hph.
  - unfold pageLoad in H. apply initGame_inv in H. simpl in H.
    destruct H as (_ & _ & _ & _ & Io & _ & _ & _ & Ig & _).
    unfold phase in Hph. rewrite Ig, Io in Hph. discriminate.
  - pose proof (reachable_inv s Hr) as (_ & _ & _ & _ & Htimer).
    assert (Hstarted : gameStarted s' = true -> crashed s').
    { intros Hg. unfold phase in Hph. rewrite Hg in Hph.
      destruct (gamePaused s'); discriminate. }
    apply step_transition in H. transition_cases H.
    + now apply IH.
    + destruct (endGame_frame s) as (Es & _ & Edx & Edy & _).
      exists s0, tl. rewrite Es. split; [exact Hs|].
      unfold nextHead in *. now rewrite Edx, Edy.
    + apply Hstarted. simpl. now apply (timer_active_started h).
    + apply Hstarted. apply generateFood_frame in Hgen.
      destruct Hgen as (_ & _ & _ & _ & _ & _ & Gg & _).
      destruct (accelerate_frame sf) as (_ & _ & _ & _ & _ & _ & Ag & _).
      destruct (scored_frame (nextHead s0 s) s) as (_ & _ & _ & _ & _ & _ & _ & Eg & _).
      rewrite Ag, Gg, Eg. now apply (timer_active_started h).
    + now apply Hstarted.
    + now apply Hstarted.
    + now apply Hstarted.
    + apply Hstarted. apply initGame_inv in Hinit. simpl in Hinit.
      now destruct Hinit as (_ & _ & _ & _ & _ & _ & _ & _ & Ig & _).
    + apply restartGame_inv in Hre.
      destruct Hre as (_ & _ & _ & _ & Io & _ & _ & Ig & _).
      unfold phase in Hph. rewrite Ig, Io in Hph. discriminate.
Qed.

(** C8, as the code has it.  In a reachable state whose phase is idle,
    paused or ended, the firing of a timer changes nothing at all: while
    paused the timer fires and [update] returns at once, while idle or ended
    no timer is active and [update] is not called.  Called in a paused or an
    ended state, [update] itself returns the state it was given; it has no
    test of [gameStarted] that would make it do so in an idle state. *)
Theorem tick_outside_running (s : State) :
  reachable s -> phase s <> Running ->
  (forall fuel h, step fuel (TimerFire h) s = Some s) /\
  (phase s <> Idle -> forall fuel, update fuel s = Some s).
Proof.
  intros Hr Hph.
  pose proof (reachable_inv s Hr) as (_ & _ & _ & _ & Htimer).
  split.
  - intros fuel h.
    unfold step, gameUpdate. destruct (timer_active h s) eqn:Hact; [|reflexivity].
    pose proof (timer_active_started h s Htimer Hact) as Hg.
    unfold phase in Hph. rewrite Hg in Hph.
    destruct (gamePaused s) eqn:Hp; [|congruence].
    now apply update_paused.
  - intros Hidle fuel.
    destruct (gamePaused s) eqn:Hp; [now apply update_paused|].
    assert (Hend : phase s = Ended).
    { unfold phase in *. rewrite Hp in *.
      destruct (gameStarted s); [congruence|].
      destruct (gameOverShown s); congruence. }
    destruct (ended_crashed s Hr Hend) as (s0 & tl & Hs & Hhit).
    assert (Hfix : endGame s = s).
    { unfold phase in Hend. unfold timer_ok in Htimer.
      destruct (gameStarted s) eqn:Hg; [destruct (gamePaused s); discriminate|].
      destruct (gameOverShown s) eqn:Ho; [|discriminate]. now apply endGame_fixed. }
    rewrite <- Hfix at 2.
    destruct Hhit as [Hout|Hon].
    + now apply (update_wall fuel s s0 tl).
    + now apply (update_self fuel s s0 tl).
Qed.

(** C9.  When the arrow key pressed asks for the exact reverse of the
    current direction, the keydown listener leaves the direction and every
    other variable as they are, and raises no error: the event returns the
    state it was given. *)
Theorem reverse_direction_ignored (s : State) (d : Direction) :
  heading s = delta (opposite d) ->
  keydown (arrow d) s = s /\ forall fuel, step fuel (Keydown (arrow d)) s = Some s.
Proof.
  intros Hd.
  assert (E : keydown (arrow d) s = s).
  { unfold keydown. destruct (gameStarted s); [|reflexivity]. simpl.
    unfold heading in Hd. destruct d; simpl in Hd; injection Hd as Hx Hy;
      simpl; rewrite ?Hx, ?Hy; reflexivity. }
  split; [exact E|]. intros fuel. simpl. now rewrite E.
Qed.

Lemma phase_running_iff (s : State) :
  phase s = Running <-> gameStarted s = true /\ gamePaused s = false.
Proof.
  unfold phase. destruct (gameStarted s), (gamePaused s), (gameOverShown s);
    simpl; intuition discriminate.
Qed.

(** C1.  In a reachable running state the timer in [gameLoop] is active,
    its firing is a call of [update], and that tick does one of three
    things, decided by the cell [head] the head would enter.
    (a) [head] is the food cell: a tick that returns has prepended [head],
    kept the tail and added 10 to the score, and it does return when one of
    the candidates of the food placement is off the grown snake.
    (b) [head] is not the food, is on the board and is not on the snake: the
    tick prepends [head] and drops the tail, the length stays.
    (c) [head] is not the food and is off the board or on the snake: the
    phase becomes ended, snake, score and food stay.
    The three outcomes exclude one another. *)
Theorem tick_trichotomy (s : State) :
  0 < canvas_width -> unit_oracle -> reachable s -> phase s = Running ->
  exists h s0 tl,
    gameLoop s = Some h /\ snake s = s0 :: tl /\
    forall fuel,
      let head := nextHead s0 s in
      let tick := update fuel s in
      step fuel (TimerFire h) s = tick /\
      (head = food s ->
         (forall s', tick = Some s' ->
            grows head s s' /\ ~ moves head s s' /\ ~ ends s s') /\
         (forall k, ~ In (candidate (randomCalls s + 2 * k)) (head :: snake s) ->
            (k < fuel)%nat -> exists s', tick = Some s')) /\
      (head <> food s -> in_board head -> ~ In head (snake s) ->
         exists s', tick = Some s' /\
            moves head s s' /\ ~ grows head s s' /\ ~ ends s s') /\
      (head <> food s -> ~ (in_board head /\ ~ In head (snake s)) ->
         exists s', tick = Some s' /\
            ends s s' /\ ~ grows head s s' /\ ~ moves head s s').
Proof.
  intros Hw Hrand Hr Hph.
  pose proof (reachable_food_on_board s Hw Hrand Hr) as Hfb.
  apply reachable_inv in Hr. destruct Hr as (Hlen & Hnd & Hfood & _ & Htimer).
  apply phase_running_iff in Hph. destruct Hph as [Hg Hp].
  unfold timer_ok in Htimer. rewrite Hg in Htimer. destruct Htimer as (h & Hl & Hi).
  assert (Hcons : exists s0 tl, snake s = s0 :: tl).
  { destruct (snake s) as [|s0 tl]; [simpl in Hlen; lia | eauto]. }
  destruct Hcons as (s0 & tl & Hs).
  assert (Hact : timer_active h s = true).
  { unfold timer_active. rewrite Hi. simpl. now rewrite Nat.eqb_refl. }
  exists h, s0, tl.
  split; [exact Hl|]. split; [exact Hs|].
  intros fuel head tick. subst head tick.
  split; [unfold step, gameUpdate; now rewrite Hact|].
  split; [intros H; split | split].
  - (* food: what a returning tick has done *)
    intros s' Htick.
    rewrite (update_eat fuel s s0 tl Hp Hs) in Htick;
      [ | rewrite H; exact Hfb | rewrite H; exact Hfood | exact H ].
    destruct (generateFood fuel _) as [sf|] eqn:G; [|discriminate].
    simpl in Htick. injection Htick as <-.
    apply generateFood_frame in G.
    destruct G as (Gs & _ & _ & Gsc & _ & _ & Gg & Gp & _).
    destruct (accelerate_frame sf) as (As & _ & _ & _ & Asc & _ & Ag & Ap & _).
    destruct (scored_frame (nextHead s0 s) s)
      as (Es & _ & _ & _ & Esc & _ & _ & Eg & Ep & _).
    assert (Hgrow : grows (nextHead s0 s) s (accelerate sf)).
    { unfold grows. rewrite As, Asc, Gs, Gsc, Es, Esc. repeat split.
      apply phase_running_iff. split; congruence. }
    split; [exact Hgrow|]. destruct Hgrow as (Hsn & _ & Hrun). split.
    + intros (Hm & _). rewrite Hsn, Hs in Hm.
      apply (f_equal (@length Cell)) in Hm. cbn [length] in Hm.
      rewrite length_removelast_cons in Hm. lia.
    + intros (He & _). congruence.
  - (* food: the tick returns *)
    intros k Hfree Hk.
    rewrite (update_eat fuel s s0 tl Hp Hs);
      [ | rewrite H; exact Hfb | rewrite H; exact Hfood | exact H ].
    destruct (generateFood_returns k (scored (nextHead s0 s) s) fuel) as [sf G].
    + destruct (scored_frame (nextHead s0 s) s) as (Es & _). rewrite Es.
      replace (randomCalls (scored (nextHead s0 s) s)) with (randomCalls s); [exact Hfree|].
      unfold scored. cbv zeta. simpl. now destruct (_ <? _).
    + exact Hk.
    + rewrite G. simpl. eexists. reflexivity.
  - (* move *)
    intros Hne Hin Hoff.
    rewrite (update_move fuel s s0 tl Hp Hs Hin) by assumption.
    eexists. split; [reflexivity|].
    assert (Hmove : moves (nextHead s0 s) s
                      (set_snake (nextHead s0 s :: removelast (snake s)) s)).
    { unfold moves. split; [reflexivity|]. split.
      - cbn [snake set_snake]. rewrite Hs. cbn [length].
        now rewrite length_removelast_cons.
      - repeat split. apply phase_running_iff. now split. }
    split; [exact Hmove|]. destruct Hmove as (Hsn & Hlen' & _ & _ & Hrun). split.
    + intros (Hgr & _). rewrite Hsn, Hs in Hgr.
      apply (f_equal (@length Cell)) in Hgr. cbn [length] in Hgr.
      rewrite length_removelast_cons in Hgr. lia.
    + intros (He & _). congruence.
  - (* collision *)
    intros Hne Hhit.
    assert (E : update fuel s = Some (endGame s)).
    { destruct (in_board_dec (nextHead s0 s)) as [Hin|Hout];
        [|now apply (update_wall fuel s s0 tl)].
      destruct (in_dec cell_eq_dec (nextHead s0 s) (snake s)) as [Hon|Hoff];
        [|exfalso; apply Hhit; now split].
      now apply (update_self fuel s s0 tl Hp Hs). }
    rewrite E. eexists. split; [reflexivity|].
    destruct (endGame_frame s) as (Es & Ef & _ & _ & Esc & _ & Eg & _ & _ & Eo & _).
    assert (Hend : ends s (endGame s)).
    { unfold ends. rewrite Es, Ef, Esc. repeat split. }
    split; [exact Hend|]. destruct Hend as (He & _). split.
    + intros (_ & _ & Hrun). congruence.
    + intros (_ & _ & _ & _ & Hrun). congruence.
Qed.


(** C4.  A call to [generateFood] that returns leaves the food on a cell of
    the board that no cell of the snake occupies, and leaves the snake as it
    was; it returns as soon as a candidate off the snake comes within its
    recursion depth.  Every placement, at load, start, restart or after
    eating, is followed only by moves that keep the property: it holds in
    every reachable state. *)
Theorem food_on_board_off_snake :
  0 < canvas_width -> unit_oracle ->
  (forall fuel s s', generateFood fuel s = Some s' ->
     in_board (food s') /\ ~ In (food s') (snake s') /\ snake s' = snake s) /\
  (forall fuel s k, ~ In (candidate (randomCalls s + 2 * k)) (snake s) ->
     (k < fuel)%nat -> exists s', generateFood fuel s = Some s') /\
  (forall s, reachable s -> in_board (food s) /\ ~ In (food s) (snake s)).
Proof.
  intros Hw Hr. split; [|split].
  - intros fuel s s' H. split; [|split].
    + now apply (generateFood_in_board fuel s).
    + now apply (generateFood_off_snake fuel s).
    + now apply generateFood_frame in H as (Hs & _).
  - intros fuel s k Hfree Hk. now apply (generateFood_returns k).
  - intros s Hs. split.
    + now apply reachable_food_on_board.
    + now apply reachable_inv in Hs as (_ & _ & Hf & _).
Qed.

(** ** Termination of the food placement *)

Lemma in_columns (v : Z) :
  In v columns <-> 0 <= v /\ GRID_SIZE * v < canvas_width.
Proof.
  unfold columns, GRID_SIZE. rewrite in_map_iff. split.
  - intros (i & <- & Hi). apply in_seq in Hi.
    assert (Z.of_nat i < (canvas_width + 20 - 1) / 20) by lia.
    split; [lia|]. Z.div_mod_to_equations. lia.
  - intros [H0 H1]. exists (Z.to_nat v). split; [lia|].
    apply in_seq. split; [lia|]. simpl.
    assert (v < (canvas_width + 20 - 1) / 20) by (Z.div_mod_to_equations; lia).
    lia.
Qed.

Lemma in_board_cells (c : Cell) : In c board_cells <-> in_board c.
Proof.
  unfold board_cells. rewrite in_map_iff, in_board_Z. split.
  - intros ([i j] & <- & Hp). apply in_prod_iff in Hp. destruct Hp as [Hi Hj].
    apply in_columns in Hi. apply in_columns in Hj. simpl. tauto.
  - intros (? & ? & ? & ?). exists (x c, y c). split; [now destruct c|].
    apply in_prod_iff. split; apply in_columns; auto.
Qed.

Lemma NoDup_list_prod {A B : Type} (l : list A) (l' : list B) :
  NoDup l -> NoDup l' -> NoDup (list_prod l l').
Proof.
  intros Hl Hl'. induction Hl as [|a l Ha Hl IH]; simpl; [constructor|].
  apply NoDup_app.
  - clear - Hl'. induction Hl' as [|b l' Hb _ IH]; simpl; constructor; [|exact IH].
    rewrite in_map_iff. intros (b' & E & Hin). injection E as <-. contradiction.
  - exact IH.
  - intros [a' b] Hin Hin'. apply in_map_iff in Hin. destruct Hin as (b' & E & _).
    injection E as <- <-. apply in_prod_iff in Hin'. now destruct Hin'.
Qed.

Lemma NoDup_board_cells : NoDup board_cells.
Proof.
  unfold board_cells.
  assert (Hc : NoDup columns).
  { unfold columns. generalize (seq_NoDup (Z.to_nat ((canvas_width + GRID_SIZE - 1) / GRID_SIZE)) 0).
    generalize (seq 0 (Z.to_nat ((canvas_width + GRID_SIZE - 1) / GRID_SIZE))).
    intros l Hl. induction Hl as [|a l Ha _ IH]; simpl; constructor; [|exact IH].
    rewrite in_map_iff. intros (b & E & Hin). apply Nat2Z.inj in E. now subst. }
  generalize (NoDup_list_prod columns columns Hc Hc).
  generalize (list_prod columns columns).
  intros l Hl. induction Hl as [|a l Ha _ IH]; simpl; constructor; [|exact IH].
  rewrite in_map_iff. intros (b & E & Hin). injection E as E1 E2.
  destruct a, b; simpl in *; subst. contradiction.
Qed.

Lemma length_board_cells :
  Z.of_nat (length board_cells) =
  Z.max 0 ((canvas_width + GRID_SIZE - 1) / GRID_SIZE) *
  Z.max 0 ((canvas_width + GRID_SIZE - 1) / GRID_SIZE).
Proof.
  unfold board_cells, columns.
  rewrite length_map, length_prod, length_map, length_seq. lia.
Qed.

(** Pigeonhole: a list shorter than a duplicate-free one misses one of its
    elements. *)
Lemma exists_outside (u l : list Cell) :
  NoDup u -> (length l < length u)%nat -> exists c, In c u /\ ~ In c l.
Proof.
  intros Hu Hlt.
  destruct (existsb (fun c => negb (existsb (cell_eqb c) l)) u) eqn:E.
  - apply existsb_exists in E. destruct E as (c & Hc & Hn). exists c. split; [exact Hc|].
    intros Hin. apply negb_true_iff in Hn.
    assert (existsb (cell_eqb c) l = true)
      by (apply existsb_exists; exists c; split; [exact Hin | now apply cell_eqb_eq]).
    congruence.
  - exfalso. assert (Hincl : incl u l).
    { intros c Hc. destruct (existsb (cell_eqb c) l) eqn:F.
      - apply existsb_exists in F. destruct F as (c' & Hc' & Heq).
        apply cell_eqb_eq in Heq. now subst.
      - assert (existsb (fun c => negb (existsb (cell_eqb c) l)) u = true)
          by (apply existsb_exists; exists c; split; [exact Hc | now rewrite F]).
        congruence. }
    pose proof (NoDup_incl_length Hu Hincl). lia.
Qed.

(** A snake with fewer cells than [TILE_COUNT * TILE_COUNT] leaves a cell of
    the board free. *)
Lemma free_cell_exists (l : list Cell) :
  0 <= canvas_width ->
  (inject_Z (Z.of_nat (length l)) < TILE_COUNT * TILE_COUNT)%Q ->
  exists c, in_board c /\ ~ In c l.
Proof.
  intros Hw Hlt.
  destruct (exists_outside board_cells l NoDup_board_cells) as (c & Hc & Hn).
  - apply Nat2Z.inj_lt. rewrite length_board_cells.
    unfold TILE_COUNT, GRID_SIZE, Qlt, Qdiv, Qmult, Qinv, inject_Z in Hlt.
    cbn -[Z.mul Z.of_nat] in Hlt. unfold GRID_SIZE.
    set (n := (canvas_width + 20 - 1) / 20).
    assert (Hn : canvas_width <= 20 * n) by (unfold n; Z.div_mod_to_equations; lia).
    assert (0 <= n) by lia. rewrite Z.max_r by lia.
    assert (canvas_width * canvas_width <= (20 * n) * (20 * n)) by nia.
    nia.
  - exists c. split; [now apply in_board_cells | exact Hn].
Qed.

(** C5.  When the snake has fewer cells than the [TILE_COUNT * TILE_COUNT]
    of the board and the generator is fair, in that it proposes every cell
    of the board sooner or later, the food placement terminates: with enough
    recursion depth the call returns, and the food it has chosen is not on
    the snake. *)
Theorem generateFood_terminates (s : State) :
  0 <= canvas_width ->
  (inject_Z (Z.of_nat (length (snake s))) < TILE_COUNT * TILE_COUNT)%Q ->
  fair_from (randomCalls s) ->
  exists fuel s', generateFood fuel s = Some s' /\ ~ In (food s') (snake s).
Proof.
  intros Hw Hlt Hfair.
  destruct (free_cell_exists (snake s) Hw Hlt) as (c & Hc & Hfree).
  destruct (Hfair c Hc) as (k & Hk).
  destruct (generateFood_returns k s (S k)) as (s' & H); [now rewrite Hk | lia |].
  exists (S k), s'. split; [exact H|].
  pose proof (generateFood_off_snake _ _ _ H) as Hoff.
  now apply generateFood_frame in H as (<- & _).
Qed.


(** The precondition cannot be dropped: on a board the snake fills, every
    candidate is rejected and the call returns at no depth. *)
Lemma generateFood_full_board (fuel : nat) (s : State) :
  0 < canvas_width -> unit_oracle ->
  (forall c, in_board c -> In c (snake s)) ->
  generateFood fuel s = None.
Proof.
  intros Hw Hr Hfull. apply generateFood_starves.
  intros k. apply Hfull. now apply candidate_in_board.
Qed.

(** Every cell of the board is the candidate of some pair of results of
    [Math.random]. *)
Lemma every_cell_is_a_candidate (c : Cell) :
  in_board c ->
  exists r1 r2 : Q,
    (0 <= r1 < 1)%Q /\ (0 <= r2 < 1)%Q /\
    mkCell (Qfloor (r1 * TILE_COUNT)) (Qfloor (r2 * TILE_COUNT)) = c.
Proof.
  intros (Hx0 & Hx1 & Hy0 & Hy1).
  assert (HT : (0 < TILE_COUNT)%Q).
  { apply Qle_lt_trans with (inject_Z (x c)); [|exact Hx1].
    change 0%Q with (inject_Z 0). now rewrite <- Zle_Qle. }
  assert (Hfloor : forall v, Qfloor (inject_Z v / TILE_COUNT * TILE_COUNT) = v).
  { intros v. rewrite <- (Qfloor_Z v) at 2. apply Qfloor_comp.
    rewrite Qmult_comm. apply Qmult_div_r. intros E. rewrite E in HT.
    now apply Qlt_irrefl in HT. }
  assert (Hunit : forall v, 0 <= v -> (inject_Z v < TILE_COUNT)%Q ->
                            (0 <= inject_Z v / TILE_COUNT < 1)%Q).
  { intros v H0 H1. split.
    - apply Qle_shift_div_l; [exact HT|]. rewrite Qmult_0_l.
      change 0%Q with (inject_Z 0). now rewrite <- Zle_Qle.
    - apply Qlt_shift_div_r; [exact HT|]. now rewrite Qmult_1_l. }
  exists (inject_Z (x c) / TILE_COUNT)%Q, (inject_Z (y c) / TILE_COUNT)%Q.
  split; [now apply Hunit|]. split; [now apply Hunit|].
  rewrite !Hfloor. now destruct c.
Qed.

(** ** The high score *)

Lemma scored_log (c : Cell) (s : State) :
  setItemLog (scored c s) =
  if highScore s <? score s + 10 then (score s + 10) :: setItemLog s else setItemLog s.
Proof. unfold scored. cbv zeta. simpl. now destruct (highScore s <? score s + 10). Qed.

(** What one event does to the score, the high score and the storage. *)
Lemma transition_scores (fuel : nat) (e : Event) (s s' : State) :
  0 <= score s <= highScore s -> transition fuel s e s' ->
  0 <= score s' /\
  highScore s' = Z.max (highScore s) (score s') /\
  setItemLog s' =
    if highScore s <? score s' then score s' :: setItemLog s else setItemLog s.
Proof.
  intros Hsc T.
  assert (Hno : (highScore s <? score s) = false) by (apply Z.ltb_ge; lia).
  assert (Hz : (highScore s <? 0) = false) by (apply Z.ltb_ge; lia).
  transition_cases T.
  - rewrite Hno. repeat split; lia.
  - destruct (endGame_frame s) as (_ & _ & _ & _ & -> & -> & _ & _ & _ & _ & -> & _).
    rewrite Hno. repeat split; lia.
  - simpl. rewrite Hno. repeat split; lia.
  - apply generateFood_frame in Hgen.
    destruct Hgen as (_ & _ & _ & Gsc & Gh & _ & _ & _ & _ & _ & _ & _ & Gl).
    destruct (accelerate_frame sf) as (_ & _ & _ & _ & -> & -> & _ & _ & _ & ->).
    destruct (scored_frame (nextHead s0 s) s) as (_ & _ & _ & _ & Esc & Eh & _).
    rewrite Gsc, Gh, Gl, Esc, Eh, scored_log. repeat split; lia.
  - simpl. rewrite Hno. repeat split; lia.
  - simpl. rewrite Hno. repeat split; lia.
  - simpl. rewrite Hno. repeat split; lia.
  - apply initGame_inv in Hinit. simpl in Hinit.
    destruct Hinit as (_ & _ & _ & Isc & _ & _ & Ih & _ & _ & _ & _ & _ & _ & Il).
    simpl. rewrite Isc, Ih, Il, Hz. repeat split; lia.
  - apply restartGame_inv in Hre.
    destruct Hre as (_ & _ & _ & Isc & _ & _ & Ih & _ & _ & _ & Il & _).
    rewrite Isc, Ih, Il, Hz. repeat split; lia.
Qed.

Lemma execution_scores (tr : list State) :
  0 <= initialHighScore -> execution tr ->
  forall s past, tr = s :: past ->
    0 <= score s <= highScore s /\
    highScore s = Z.max initialHighScore (best tr) /\
    (forall p, In p past -> highScore p <= highScore s) /\
    match past with
    | [] => setItemLog s = []
    | p :: _ => setItemLog s =
                if highScore p <? score s then score s :: setItemLog p else setItemLog p
    end.
Proof.
  intros H0 Hex. induction Hex as [fuel s1 Hload | fuel e s1 s2 tr Hex IH Hstep];
    intros s past E; injection E as <- <-.
  - unfold pageLoad in Hload. apply initGame_inv in Hload. simpl in Hload.
    destruct Hload as (_ & _ & _ & Isc & _ & _ & Ih & _ & _ & _ & _ & _ & _ & Il).
    simpl. rewrite Isc, Ih, Il. repeat split; try lia; contradiction.
  - destruct (IH s1 tr eq_refl) as (Hsc & Hmax & Hmono & _).
    apply step_transition in Hstep.
    destruct (transition_scores fuel e s1 s2 Hsc Hstep) as (Hnn & Hh & Hlog).
    change (best (s2 :: s1 :: tr)) with (Z.max (score s2) (best (s1 :: tr))).
    repeat split; try lia; [|exact Hlog].
    intros p [<-|Hp]; [lia|]. specialize (Hmono p Hp). lia.
Qed.

(** C3.  Along any run of the page the high score never decreases, it is
    at every moment the larger of the stored high score read at load and
    the highest score any state of the run has had, and each event writes to
    the storage exactly when the score after it exceeds the high score
    before it, the value written being that score.  The stored value is
    assumed to be a non-negative number, as every value the script writes
    is. *)
Theorem highScore_is_running_maximum (s : State) (past : list State) :
  0 <= initialHighScore -> execution (s :: past) ->
  highScore s = Z.max initialHighScore (best (s :: past)) /\
  (forall p, In p past -> highScore p <= highScore s) /\
  match past with
  | [] => setItemLog s = []
  | p :: _ => setItemLog s =
              if highScore p <? score s then score s :: setItemLog p else setItemLog p
  end.
Proof.
  intros H0 Hex.
  destruct (execution_scores (s :: past) H0 Hex s past eq_refl) as (_ & H).
  exact H.
Qed.


(** ** Start and restart *)

Lemma run_reachable (fuel : nat) (es : list Event) : forall s s',
  reachable s -> run fuel es s = Some s' -> reachable s'.
Proof.
  induction es as [|e es IH]; intros s s' Hr H; simpl in H.
  - now injection H as <-.
  - destruct (step fuel e s) as [s1|] eqn:E; [|discriminate]. simpl in H.
    apply (IH s1 s'); [|exact H]. now apply (reach_step fuel e s).
Qed.

(** [startGame] arms the timer with whatever [gameSpeed] holds. *)
Lemma startGame_speed (fuel : nat) (s s' : State) :
  gameStarted s = false -> startGame fuel s = Some s' ->
  phase s' = Running /\ snake s' = initialSnake /\ heading s' = (1, 0) /\
  score s' = 0 /\ gameSpeed s' = gameSpeed s /\
  intervals s' = (nextHandle s, gameSpeed s) :: intervals s.
Proof.
  intros Hg H. unfold startGame in H. rewrite Hg in H. simpl in H.
  destruct (initGame fuel _) as [sf|] eqn:G; [|discriminate]. simpl in H.
  injection H as <-. apply initGame_inv in G. simpl in G.
  destruct G as (Is & Idx & Idy & Isc & _ & _ & _ & _ & Ig & Ip & Isp & Ii & In' & _).
  unfold phase, heading, setInterval. simpl.
  rewrite Is, Idx, Idy, Isc, Ig, Ip, Isp, Ii, In'. repeat split.
Qed.

(** While the game is idle the interval is the initial one. *)
Lemma idle_speed (s : State) : reachable s -> phase s = Idle -> gameSpeed s = 120.
Proof.
  intros Hr. induction Hr as [fuel s H | fuel e s s' Hr IH H]; intros Hph.
  - unfold pageLoad in H. apply initGame_inv in H. simpl in H.
    now destruct H as (_ & _ & _ & _ & _ & _ & _ & _ & _ & _ & -> & _).
  - pose proof (reachable_inv s Hr) as (_ & _ & _ & _ & Htimer).
    apply step_transition in H.
    transition_cases H.
    + now apply IH.
    + unfold phase in Hph.
      destruct (endGame_frame s) as (_ & _ & _ & _ & _ & _ & Eg & _ & _ & Eo & _).
      rewrite Eg, Eo in Hph. discriminate.
    + pose proof (timer_active_started h s Htimer Hact) as Hg.
      unfold phase in Hph. simpl in Hph. rewrite Hg in Hph.
      destruct (gamePaused s); discriminate.
    + pose proof (timer_active_started h s Htimer Hact) as Hg.
      apply generateFood_frame in Hgen.
      destruct Hgen as (_ & _ & _ & _ & _ & _ & Gg & _).
      destruct (accelerate_frame sf) as (_ & _ & _ & _ & _ & _ & Ag & _).
      destruct (scored_frame (nextHead s0 s) s) as (_ & _ & _ & _ & _ & _ & _ & Eg & _).
      unfold phase in Hph. rewrite Ag, Gg, Eg, Hg in Hph.
      destruct (gamePaused (accelerate sf)); discriminate.
    + unfold phase in Hph. simpl in Hph. rewrite Hg in Hph.
      destruct (gamePaused s); discriminate.
    + unfold phase in Hph. simpl in Hph. rewrite Hg in Hph.
      destruct (gamePaused s); discriminate.
    + unfold phase in Hph. simpl in Hph. rewrite Hg in Hph.
      destruct (gamePaused s); discriminate.
    + apply initGame_inv in Hinit. simpl in Hinit.
      destruct Hinit as (_ & _ & _ & _ & _ & _ & _ & _ & Ig & _).
      unfold phase in Hph. simpl in Hph. rewrite Ig in Hph.
      destruct (gamePaused sf); discriminate.
    + apply restartGame_inv in Hre.
      now destruct Hre as (_ & _ & _ & _ & _ & _ & _ & _ & _ & Isp & _).
Qed.

(** From an idle state the start button arms the timer with the initial
    interval. *)
Lemma start_from_idle (fuel : nat) (s s' : State) :
  reachable s -> phase s = Idle -> startGame fuel s = Some s' ->
  phase s' = Running /\ gameSpeed s' = 120 /\
  intervals s' = [(nextHandle s, 120)].
Proof.
  intros Hr Hph H.
  pose proof (idle_speed s Hr Hph) as Hsp.
  pose proof (reachable_inv s Hr) as (_ & _ & _ & _ & Htimer).
  assert (Hg : gameStarted s = false).
  { unfold phase in Hph. destruct (gameStarted s); [|reflexivity].
    destruct (gamePaused s); discriminate. }
  unfold timer_ok in Htimer. rewrite Hg in Htimer.
  destruct (startGame_speed fuel s s' Hg H) as (Hrun & _ & _ & _ & Hs' & Hi).
  rewrite Hsp in Hs', Hi. rewrite Htimer in Hi. auto.
Qed.

(** C6, as the code has it.  From a reachable ended state, a restart that
    returns leaves the game idle, not running: not started, not paused, the
    game-over banner hidden and no timer active.  The snake is the initial
    one heading right, the score is 0 and the interval is back at 120.  The
    game runs again only after the start button: from the restarted state
    every timer, every key and the pause button leave the state as it is,
    another restart leaves the game idle, and the start button makes it
    running, unpaused, with the interval 120.  The restart returns when a
    candidate of the food placement is off the initial snake. *)
Theorem restart_returns_to_idle (s : State) :
  reachable s -> phase s = Ended ->
  (forall fuel s', restartGame fuel s = Some s' ->
     (phase s' = Idle /\ gameStarted s' = false /\ gamePaused s' = false /\
      gameOverShown s' = false /\ intervals s' = []) /\
     (snake s' = initialSnake /\ heading s' = (1, 0) /\ score s' = 0 /\
      gameSpeed s' = 120) /\
     (forall fuel' e s'', step fuel' e s' = Some s'' ->
        match e with
        | ClickStart =>
            phase s'' = Running /\ gamePaused s'' = false /\ gameSpeed s'' = 120
        | ClickRestart => phase s'' = Idle
        | TimerFire _ | Keydown _ | ClickPause => s'' = s'
        end)) /\
  (forall fuel k, ~ In (candidate (randomCalls s + 2 * k)) initialSnake ->
     (k < fuel)%nat -> exists s', restartGame fuel s = Some s').
Proof.
  intros Hr _. pose proof (reachable_inv s Hr) as (_ & _ & _ & _ & Htimer).
  split.
  - intros fuel s' H.
    assert (Hr' : reachable s') by (apply (reach_step fuel ClickRestart s); assumption).
    apply restartGame_inv in H.
    destruct H as (Is & Idx & Idy & Isc & Io & _ & _ & Ig & Ip & Isp & _ & Ii).
    assert (Hi : intervals s' = []) by (rewrite Ii; now apply clearInterval_timer_ok).
    assert (Hidle : phase s' = Idle) by (unfold phase; now rewrite Ig, Io).
    split; [repeat split; assumption|].
    split; [unfold heading; rewrite Idx, Idy; repeat split; assumption|].
    intros fuel' e s'' Hstep. destruct e as [h|k| | |]; simpl in Hstep.
    + unfold timer_active in Hstep. rewrite Hi in Hstep. simpl in Hstep.
      now injection Hstep as <-.
    + unfold keydown in Hstep. rewrite Ig in Hstep. simpl in Hstep.
      now injection Hstep as <-.
    + destruct (start_from_idle fuel' s' s'' Hr' Hidle Hstep) as (Hrun & Hsp & _).
      split; [exact Hrun|]. split; [|exact Hsp].
      now apply phase_running_iff in Hrun as (_ & Hp).
    + unfold togglePause in Hstep. rewrite Ig in Hstep. simpl in Hstep.
      now injection Hstep as <-.
    + apply restartGame_inv in Hstep.
      destruct Hstep as (_ & _ & _ & _ & Io' & _ & _ & Ig' & _).
      unfold phase. now rewrite Ig', Io'.
  - intros fuel k Hfree Hk. unfold restartGame, initGame. cbv zeta.
    apply (generateFood_returns k); [|exact Hk].
    simpl. now destruct (gameLoop s).
Qed.

(** ** Further properties of the script *)

(** X1.  In every reachable state at most one interval timer is active.
    While the game is started it is the timer whose handle [gameLoop]
    holds, and its delay is the current [gameSpeed]; while the game is not
    started no timer is active. *)
Theorem one_timer_at_most (s : State) :
  reachable s ->
  (gameStarted s = true ->
     exists h, gameLoop s = Some h /\ intervals s = [(h, gameSpeed s)]) /\
  (gameStarted s = false -> intervals s = []).
Proof.
  intros Hr. apply reachable_inv in Hr. destruct Hr as (_ & _ & _ & _ & Htimer).
  unfold timer_ok in Htimer. destruct (gameStarted s); split; intros E;
    try discriminate; exact Htimer.
Qed.

Lemma accelerate_speed (s : State) :
  gameSpeed (accelerate s) = if 70 <? gameSpeed s then gameSpeed s - 2 else gameSpeed s.
Proof.
  unfold accelerate. destruct (70 <? gameSpeed s); [|reflexivity].
  cbv zeta. unfold clearInterval, setInterval. simpl. now destruct (gameLoop s).
Qed.

Lemma speed_transition (fuel : nat) (e : Event) (s s' : State) :
  70 <= gameSpeed s <= 120 /\ Z.even (gameSpeed s) = true ->
  transition fuel s e s' ->
  70 <= gameSpeed s' <= 120 /\ Z.even (gameSpeed s') = true.
Proof.
  intros Hsp T. transition_cases T; try exact Hsp.
  - now destruct (endGame_frame s) as (_ & _ & _ & _ & _ & _ & _ & _ & -> & _).
  - apply generateFood_frame in Hgen.
    destruct Hgen as (_ & _ & _ & _ & _ & _ & _ & _ & Gsp & _).
    destruct (scored_frame (nextHead s0 s) s)
      as (_ & _ & _ & _ & _ & _ & _ & _ & _ & Esp & _).
    rewrite accelerate_speed, Gsp, Esp. destruct Hsp as [Hb He].
    destruct (70 <? gameSpeed s) eqn:E; [|now split].
    apply Z.ltb_lt in E. split.
    + assert (gameSpeed s <> 71) by (intros F; rewrite F in He; discriminate). lia.
    + rewrite Z.even_sub, He. reflexivity.
  - apply initGame_inv in Hinit. simpl in Hinit.
    destruct Hinit as (_ & _ & _ & _ & _ & _ & _ & _ & _ & _ & Isp & _).
    unfold setInterval. simpl. now rewrite Isp.
  - apply restartGame_inv in Hre.
    destruct Hre as (_ & _ & _ & _ & _ & _ & _ & _ & _ & -> & _). split; [lia|reflexivity].
Qed.

Lemma reachable_speed (s : State) :
  reachable s -> 70 <= gameSpeed s <= 120 /\ Z.even (gameSpeed s) = true.
Proof.
  induction 1 as [fuel s H | fuel e s s' _ IH H].
  - unfold pageLoad in H. apply initGame_inv in H. simpl in H.
    destruct H as (_ & _ & _ & _ & _ & _ & _ & _ & _ & _ & -> & _).
    split; [lia|reflexivity].
  - apply (speed_transition fuel e s s' IH). now apply step_transition.
Qed.

(** X2.  In every reachable state the tick interval is an even number of
    milliseconds, at least 70 and at most 120: the game never runs faster
    than one tick per 70 ms. *)
Theorem speed_between_70_and_120 (s : State) :
  reachable s -> 70 <= gameSpeed s <= 120 /\ Z.even (gameSpeed s) = true.
Proof. exact (reachable_speed s). Qed.

(** What a call of [update] that returns has done. *)
Lemma update_cases (fuel : nat) (s s' : State) :
  update fuel s = Some s' ->
  s' = s \/ s' = endGame s \/
  (exists s0 tl, snake s = s0 :: tl /\ gamePaused s = false /\
     nextHead s0 s <> food s /\
     s' = set_snake (nextHead s0 s :: removelast (snake s)) s) \/
  (exists s0 tl sf, snake s = s0 :: tl /\ gamePaused s = false /\
     nextHead s0 s = food s /\ ~ In (nextHead s0 s) (snake s) /\
     generateFood fuel (scored (nextHead s0 s) s) = Some sf /\ s' = accelerate sf).
Proof.
  intros H.
  destruct (gamePaused s) eqn:Hp.
  { rewrite (update_paused fuel s Hp) in H. injection H as <-. now left. }
  destruct (snake s) as [|s0 tl] eqn:Hs.
  { unfold update in H. rewrite Hp, Hs in H. discriminate. }
  rewrite <- Hs.
  destruct (in_board_dec (nextHead s0 s)) as [Hin|Hout].
  2:{ rewrite (update_wall fuel s s0 tl Hp Hs Hout) in H. injection H as <-. auto. }
  destruct (in_dec cell_eq_dec (nextHead s0 s) (snake s)) as [Hon|Hfree].
  { rewrite (update_self fuel s s0 tl Hp Hs Hon) in H. injection H as <-. auto. }
  destruct (cell_eq_dec (nextHead s0 s) (food s)) as [Heq|Hne].
  - rewrite (update_eat fuel s s0 tl Hp Hs Hin Hfree Heq) in H.
    destruct (generateFood fuel (scored (nextHead s0 s) s)) as [sf|] eqn:G; [|discriminate].
    simpl in H. injection H as <-. right. right. right.
    exists s0, tl, sf. auto 10.
  - rewrite (update_move fuel s s0 tl Hp Hs Hin Hfree Hne) in H. injection H as <-.
    right. right. left. exists s0, tl. auto 10.
Qed.

(** X3.  A tick of a reachable running game that lengthens the snake, that
    is, one that eats, shortens the interval by 2 ms down to the floor of
    70, leaves the food on another cell than before, and leaves exactly one
    timer active, with the new interval as its delay. *)
Theorem eating_accelerates (s s' : State) (fuel : nat) :
  reachable s -> phase s = Running ->
  update fuel s = Some s' -> length (snake s') = S (length (snake s)) ->
  gameSpeed s' = Z.max 70 (gameSpeed s - 2) /\
  food s' <> food s /\
  exists h, gameLoop s' = Some h /\ intervals s' = [(h, gameSpeed s')].
Proof.
  intros Hr Hph H Hlen.
  pose proof (reachable_speed s Hr) as (Hsp & Hev).
  pose proof (reachable_inv s Hr) as (_ & _ & _ & _ & Htimer).
  apply phase_running_iff in Hph. destruct Hph as [Hg Hp].
  assert (Hact : exists h, timer_active h s = true).
  { unfold timer_ok in Htimer. rewrite Hg in Htimer. destruct Htimer as (h & _ & Hi).
    exists h. unfold timer_active. rewrite Hi. simpl. now rewrite Nat.eqb_refl. }
  destruct Hact as (h & Hact).
  assert (Hr' : reachable s').
  { apply (reach_step fuel (TimerFire h) s); [exact Hr|].
    unfold step, gameUpdate. now rewrite Hact. }
  apply update_cases in H.
  destruct H as [-> | [-> | [(s0 & tl & Hs & _ & _ & ->) | (s0 & tl & sf & Hs & _ & Heq & _ & G & ->)]]].
  - lia.
  - destruct (endGame_frame s) as (Es & _). rewrite Es in Hlen. lia.
  - cbn [snake set_snake] in Hlen. rewrite Hs in Hlen. cbn [length] in Hlen.
    rewrite length_removelast_cons in Hlen. lia.
  - pose proof (generateFood_off_snake _ _ _ G) as Hoff.
    apply generateFood_frame in G.
    destruct G as (Gs & _ & _ & _ & _ & _ & Gg & _ & Gsp & _).
    destruct (scored_frame (nextHead s0 s) s)
      as (Es & _ & _ & _ & _ & _ & _ & Eg & _ & Esp & _).
    destruct (accelerate_frame sf) as (_ & Af & _ & _ & _ & _ & Ag & _).
    split; [|split].
    + rewrite accelerate_speed, Gsp, Esp.
      destruct (70 <? gameSpeed s) eqn:E.
      * apply Z.ltb_lt in E.
        assert (gameSpeed s <> 71) by (intros F; rewrite F in Hev; discriminate). lia.
      * apply Z.ltb_ge in E. lia.
    + rewrite Af. intros F. apply Hoff. rewrite F, Gs, Es, <- Heq. now left.
    + pose proof (reachable_inv _ Hr') as (_ & _ & _ & _ & Htimer').
      unfold timer_ok in Htimer'. now rewrite Ag, Gg, Eg, Hg in Htimer'.
Qed.

Lemma score_length_transition (fuel : nat) (e : Event) (s s' : State) :
  score s = 10 * (Z.of_nat (length (snake s)) - 3) ->
  transition fuel s e s' ->
  score s' = 10 * (Z.of_nat (length (snake s')) - 3).
Proof.
  intros Hk T. transition_cases T; try exact Hk.
  - now destruct (endGame_frame s) as (-> & _ & _ & _ & -> & _).
  - cbn [snake score set_snake]. rewrite Hs. cbn [length].
    rewrite length_removelast_cons. now rewrite Hs in Hk.
  - apply generateFood_frame in Hgen. destruct Hgen as (Gs & _ & _ & Gsc & _).
    destruct (accelerate_frame sf) as (-> & _ & _ & _ & -> & _).
    destruct (scored_frame (nextHead s0 s) s) as (Es & _ & _ & _ & Esc & _).
    rewrite Gs, Es, Gsc, Esc. cbn [length]. lia.
  - apply initGame_inv in Hinit. destruct Hinit as (Is & _ & _ & Isc & _).
    unfold setInterval. simpl. now rewrite Is, Isc.
  - apply restartGame_inv in Hre. destruct Hre as (Is & _ & _ & Isc & _).
    now rewrite Is, Isc.
Qed.

Lemma reachable_score_length (s : State) :
  reachable s -> score s = 10 * (Z.of_nat (length (snake s)) - 3).
Proof.
  induction 1 as [fuel s H | fuel e s s' _ IH H].
  - unfold pageLoad in H. apply initGame_inv in H.
    destruct H as (Is & _ & _ & Isc & _). now rewrite Is, Isc.
  - apply (score_length_transition fuel e s s' IH). now apply step_transition.
Qed.

(** X4.  In every reachable state the score is ten times the number of
    cells the snake has gained over its initial three. *)
Theorem score_counts_growth (s : State) :
  reachable s -> score s = 10 * (Z.of_nat (length (snake s)) - 3).
Proof. exact (reachable_score_length s). Qed.

(** *** The snake is a chain *)

Lemma chain_removelast (l : list Cell) : chain l -> chain (removelast l).
Proof.
  induction l as [|a l IH]; [trivial|].
  destruct l as [|b l]; [trivial|].
  change (removelast (a :: b :: l)) with (a :: removelast (b :: l)).
  intros [Hab Hc]. specialize (IH Hc).
  destruct l as [|c l]; [exact I|].
  change (removelast (b :: c :: l)) with (b :: removelast (c :: l)) in *.
  split; assumption.
Qed.

Lemma chain_step (h s0 : Cell) (tl : list Cell) :
  adjacent h s0 -> chain (s0 :: tl) -> chain (h :: removelast (s0 :: tl)).
Proof.
  intros Ha Hc. destruct tl as [|b tl]; [exact I|].
  change (removelast (s0 :: b :: tl)) with (s0 :: removelast (b :: tl)).
  split; [exact Ha|].
  change (s0 :: removelast (b :: tl)) with (removelast (s0 :: b :: tl)).
  now apply chain_removelast.
Qed.

Lemma nextHead_adjacent (s0 : Cell) (s : State) :
  (exists d, heading s = delta d) -> adjacent (nextHead s0 s) s0.
Proof.
  intros (d & Hd). unfold heading in Hd. unfold adjacent, nextHead. simpl.
  destruct d; simpl in Hd; injection Hd as -> ->; lia.
Qed.

Lemma initialSnake_chain : chain initialSnake.
Proof. repeat split. Qed.

Lemma chain_transition (fuel : nat) (e : Event) (s s' : State) :
  (exists d, heading s = delta d) -> chain (snake s) ->
  transition fuel s e s' -> chain (snake s').
Proof.
  intros Hdir Hc T. transition_cases T; try exact Hc.
  - now destruct (endGame_frame s) as (-> & _).
  - cbn [snake set_snake]. rewrite Hs in *.
    apply chain_step; [|exact Hc]. now apply nextHead_adjacent.
  - apply generateFood_frame in Hgen. destruct Hgen as (Gs & _).
    destruct (accelerate_frame sf) as (-> & _). rewrite Gs.
    destruct (scored_frame (nextHead s0 s) s) as (-> & _).
    rewrite Hs in *. split; [|exact Hc]. now apply nextHead_adjacent.
  - apply initGame_inv in Hinit. destruct Hinit as (Is & _).
    unfold setInterval. simpl. rewrite Is. exact initialSnake_chain.
  - apply restartGame_inv in Hre. destruct Hre as (-> & _). exact initialSnake_chain.
Qed.

(** X5.  In every reachable state the snake is a chain: each of its cells
    is a horizontal or vertical neighbour of the next one. *)
Theorem snake_is_a_chain (s : State) : reachable s -> chain (snake s).
Proof.
  induction 1 as [fuel s H | fuel e s s' Hr IH H].
  - unfold pageLoad in H. apply initGame_inv in H. destruct H as (-> & _).
    exact initialSnake_chain.
  - pose proof (reachable_inv s Hr) as (_ & _ & _ & Hd & _).
    apply (chain_transition fuel e s s' Hd IH). now apply step_transition.
Qed.

(** *** The storage follows the high score *)

Lemma storage_transition (fuel : nat) (e : Event) (s s' : State) :
  highScore s = hd initialHighScore (setItemLog s) ->
  rising (setItemLog s) ->
  Forall (fun v => initialHighScore < v) (setItemLog s) ->
  transition fuel s e s' ->
  highScore s' = hd initialHighScore (setItemLog s') /\
  rising (setItemLog s') /\
  Forall (fun v => initialHighScore < v) (setItemLog s').
Proof.
  intros Hh Hr Ha T. transition_cases T; try (split; [exact Hh | split; assumption]).
  - destruct (endGame_frame s) as (_ & _ & _ & _ & _ & -> & _ & _ & _ & _ & -> & _).
    split; [exact Hh | split; assumption].
  - apply generateFood_frame in Hgen.
    destruct Hgen as (_ & _ & _ & _ & Gh & _ & _ & _ & _ & _ & _ & _ & Gl).
    destruct (accelerate_frame sf) as (_ & _ & _ & _ & _ & -> & _ & _ & _ & ->).
    destruct (scored_frame (nextHead s0 s) s) as (_ & _ & _ & _ & _ & Eh & _).
    rewrite Gh, Gl, Eh, scored_log.
    destruct (highScore s <? score s + 10) eqn:E.
    + apply Z.ltb_lt in E. cbn [hd]. split; [lia|]. split.
      * destruct (setItemLog s) as [|w tl']; [exact I|]. cbn [hd] in Hh.
        split; [lia | exact Hr].
      * constructor; [|exact Ha].
        destruct (setItemLog s) as [|w tl']; cbn [hd] in Hh; [lia|].
        inversion Ha; subst. lia.
    + apply Z.ltb_ge in E. split; [lia|]. split; assumption.
  - apply initGame_inv in Hinit. simpl in Hinit.
    destruct Hinit as (_ & _ & _ & _ & _ & _ & Ih & _ & _ & _ & _ & _ & _ & Il).
    unfold setInterval. simpl. rewrite Ih, Il. split; [exact Hh | split; assumption].
  - apply restartGame_inv in Hre.
    destruct Hre as (_ & _ & _ & _ & _ & _ & Ih & _ & _ & _ & Il & _).
    rewrite Ih, Il. split; [exact Hh | split; assumption].
Qed.

(** X6.  In every reachable state the high score is the number a reload of
    the page would read from the storage: the value written last, or the
    initial one when nothing has been written.  Every value written is above
    the initial high score and above all values written before it. *)
Theorem storage_follows_highScore (s : State) :
  reachable s ->
  highScore s = hd initialHighScore (setItemLog s) /\
  rising (setItemLog s) /\
  Forall (fun v => initialHighScore < v) (setItemLog s).
Proof.
  induction 1 as [fuel s H | fuel e s s' _ IH H].
  - unfold pageLoad in H. apply initGame_inv in H. simpl in H.
    destruct H as (_ & _ & _ & _ & _ & _ & Ih & _ & _ & _ & _ & _ & _ & Il).
    rewrite Ih, Il. simpl. auto.
  - destruct IH as (Hh & Hr & Ha).
    apply (storage_transition fuel e s s' Hh Hr Ha). now apply step_transition.
Qed.

(** *** Keys *)

Lemma keydown_arrow (s : State) (d h : Direction) :
  gameStarted s = true -> heading s = delta h ->
  keydown (arrow d) s =
  if perpendicular d h then set_dir (fst (delta d)) (snd (delta d)) s else s.
Proof.
  intros Hg Hh. unfold keydown. rewrite Hg. unfold heading in Hh.
  destruct d, h; simpl in *; injection Hh as Hx Hy; rewrite ?Hx, ?Hy; reflexivity.
Qed.

(** X7.  While the game is started, paused or not, an arrow key turns the
    snake exactly when it is perpendicular to the current direction: the
    direction becomes that of the key and nothing else changes.  An arrow
    along the current axis, forward or backward, changes nothing. *)
Theorem arrow_turns_iff_perpendicular (s : State) (d h : Direction) :
  gameStarted s = true -> heading s = delta h ->
  keydown (arrow d) s =
  if perpendicular d h then set_dir (fst (delta d)) (snd (delta d)) s else s.
Proof. exact (keydown_arrow s d h). Qed.

(** X8.  The reverse of the current direction is refused only against the
    direction the last key left, not against the last move: two arrows
    between two ticks, a perpendicular one and then the reverse of the
    direction of travel, turn the snake around, and the next tick runs the
    head into the cell behind it and ends the game. *)
Theorem quick_reversal_ends_game (s : State) (d p : Direction)
    (s0 s1 : Cell) (tl : list Cell) (fuel : nat) :
  gameStarted s = true -> gamePaused s = false ->
  heading s = delta d -> perpendicular p d = true ->
  snake s = s0 :: s1 :: tl ->
  x s1 = x s0 - fst (delta d) -> y s1 = y s0 - snd (delta d) ->
  let s2 := keydown (arrow (opposite d)) (keydown (arrow p) s) in
  heading s2 = delta (opposite d) /\
  update fuel s2 = Some (endGame s2) /\ phase (endGame s2) = Ended.
Proof.
  intros Hg Hp Hh Hperp Hs Hx Hy s2.
  assert (E1 : keydown (arrow p) s = set_dir (fst (delta p)) (snd (delta p)) s).
  { rewrite (keydown_arrow s p d Hg Hh). now rewrite Hperp. }
  assert (E2 : s2 = set_dir (fst (delta (opposite d))) (snd (delta (opposite d)))
                      (keydown (arrow p) s)).
  { unfold s2. rewrite (keydown_arrow _ (opposite d) p).
    - replace (perpendicular (opposite d) p) with true; [reflexivity|].
      destruct d, p; simpl in *; congruence.
    - rewrite E1. exact Hg.
    - rewrite E1. unfold heading. simpl. now destruct p. }
  rewrite E1 in E2. clearbody s2. subst s2.
  split; [unfold heading; simpl; now destruct d|].
  split.
  - set (s2 := set_dir _ _ (set_dir _ _ s)).
    assert (Hs2 : snake s2 = s0 :: s1 :: tl) by exact Hs.
    assert (Hp2 : gamePaused s2 = false) by exact Hp.
    assert (Hn : nextHead s0 s2 = s1).
    { apply cell_eq_iff. unfold nextHead, s2. simpl. rewrite Hx, Hy.
      destruct d; simpl; lia. }
    destruct (in_board_dec (nextHead s0 s2)) as [Hin|Hout].
    + apply (update_self fuel s2 s0 (s1 :: tl) Hp2 Hs2).
      rewrite Hn, Hs2. right. now left.
    + now apply (update_wall fuel s2 s0 (s1 :: tl)).
  - reflexivity.
Qed.

Lemma run_app (fuel : nat) (es es' : list Event) : forall s,
  run fuel (es ++ es') s = (s' <- run fuel es s ;; run fuel es' s').
Proof.
  induction es as [|e es IH]; intros s; simpl; [reflexivity|].
  destruct (step fuel e s) as [s1|]; simpl; [apply IH | reflexivity].
Qed.

Lemma paused_ticks (fuel : nat) (s : State) (hs : list nat) :
  gamePaused s = true -> run fuel (map TimerFire hs) s = Some s.
Proof.
  intros Hp. induction hs as [|h hs IH]; simpl; [reflexivity|].
  destruct (timer_active h s).
  - unfold gameUpdate. rewrite (update_paused fuel s Hp). simpl. exact IH.
  - simpl. exact IH.
Qed.

Lemma togglePause_twice (s : State) : togglePause (togglePause s) = s.
Proof.
  destruct s as [sn fo vx vy sc hs gl gs gp sp go iv nh lg rc].
  unfold togglePause. destruct gs; simpl; [|reflexivity].
  now rewrite negb_involutive.
Qed.

(** X9.  Pausing a started game, letting timers fire any number of times
    and resuming gives back exactly the state before the pause, whether the
    pause and the resume come from the pause button or from the space key. *)
Theorem pause_resume_round_trip (s : State) (e1 e2 : Event) (hs : list nat) (fuel : nat) :
  gameStarted s = true -> gamePaused s = false ->
  In e1 [ClickPause; Keydown Space] -> In e2 [ClickPause; Keydown Space] ->
  run fuel (e1 :: map TimerFire hs ++ [e2]) s = Some s.
Proof.
  intros Hg Hp H1 H2.
  assert (S1 : step fuel e1 s = Some (togglePause s)).
  { destruct H1 as [<-|[<-|[]]]; simpl; [reflexivity|].
    unfold keydown. now rewrite Hg. }
  assert (Hg' : gameStarted (togglePause s) = true).
  { unfold togglePause. rewrite Hg. exact Hg. }
  assert (S2 : step fuel e2 (togglePause s) = Some s).
  { rewrite <- (togglePause_twice s) at 2.
    destruct H2 as [<-|[<-|[]]]; simpl; [reflexivity|].
    unfold keydown. now rewrite Hg'. }
  cbn [run]. rewrite S1. cbn [bind]. rewrite run_app.
  rewrite paused_ticks.
  - cbn [bind run]. rewrite S2. reflexivity.
  - unfold togglePause. rewrite Hg. simpl. now rewrite Hp.
Qed.

(** X10.  While the game is not started, idle or over, only the start and
    the restart button do anything: every timer, every key and the pause
    button leave the state of a reachable page exactly as it is. *)
Theorem not_started_only_buttons_act (s : State) (e : Event) (fuel : nat) :
  reachable s -> gameStarted s = false ->
  e <> ClickStart -> e <> ClickRestart ->
  step fuel e s = Some s.
Proof.
  intros Hr Hg Hs Hre.
  pose proof (reachable_inv s Hr) as (_ & _ & _ & _ & Htimer).
  unfold timer_ok in Htimer. rewrite Hg in Htimer.
  destruct e as [h|k| | |]; try congruence; simpl.
  - unfold timer_active. now rewrite Htimer.
  - unfold keydown. now rewrite Hg.
  - unfold togglePause. now rewrite Hg.
Qed.

(** *** Restart, then start *)

Lemma startGame_keeps (fuel : nat) (s s' : State) :
  gameStarted s = false -> startGame fuel s = Some s' ->
  highScore s' = highScore s /\ setItemLog s' = setItemLog s.
Proof.
  intros Hg H. unfold startGame in H. rewrite Hg in H. simpl in H.
  destruct (initGame fuel _) as [sf|] eqn:G; [|discriminate]. simpl in H.
  injection H as <-. apply initGame_inv in G. simpl in G.
  destruct G as (_ & _ & _ & _ & _ & _ & Ih & _ & _ & _ & _ & _ & _ & Il).
  unfold setInterval. simpl. now rewrite Ih, Il.
Qed.

(** A first candidate off the snake is taken at once. *)
Lemma generateFood_first (fuel : nat) (s : State) :
  ~ In (candidate (randomCalls s)) (snake s) ->
  generateFood (S fuel) s =
  Some (set_randomCalls (S (S (randomCalls s))) (set_food (candidate (randomCalls s)) s)).
Proof.
  intros Hfree. rewrite generateFood_unfold. cbv zeta.
  set (s1 := set_randomCalls _ _).
  destruct (existsb _ (snake s1)) eqn:E; [|reflexivity].
  apply on_snake_iff in E. contradiction.
Qed.

(** X11.  From any reachable state, in the middle of a game, paused or
    over, the restart button followed by the start button gives a running
    game on the initial snake heading right, with score 0, the interval back
    at 120 and one timer of that delay, while the high score and the storage
    are as before.  Between the two clicks the game is idle and no timer is
    active.  Both clicks return when the next two candidates of the food
    placement are off the initial snake. *)
Theorem restart_then_start (s : State) :
  reachable s ->
  (forall fuel1 fuel2 s1 s2,
     restartGame fuel1 s = Some s1 -> startGame fuel2 s1 = Some s2 ->
     phase s1 = Idle /\ intervals s1 = [] /\
     phase s2 = Running /\ snake s2 = initialSnake /\ heading s2 = (1, 0) /\
     score s2 = 0 /\ gameSpeed s2 = 120 /\ (exists h, intervals s2 = [(h, 120)]) /\
     highScore s2 = highScore s /\ setItemLog s2 = setItemLog s) /\
  (forall fuel,
     ~ In (candidate (randomCalls s)) initialSnake ->
     ~ In (candidate (S (S (randomCalls s)))) initialSnake ->
     exists s1 s2,
       restartGame (S fuel) s = Some s1 /\ startGame (S fuel) s1 = Some s2).
Proof.
  intros Hr. split.
  - intros fuel1 fuel2 s1 s2 H1 H2.
    assert (Hr1 : reachable s1) by (apply (reach_step fuel1 ClickRestart s); assumption).
    apply restartGame_inv in H1.
    destruct H1 as (_ & _ & _ & _ & Io & _ & Ih & Ig & _ & _ & Il & Ii).
    assert (Hidle : phase s1 = Idle) by (unfold phase; now rewrite Ig, Io).
    destruct (start_from_idle fuel2 s1 s2 Hr1 Hidle H2) as (Hrun & Hsp & Hint).
    destruct (startGame_speed fuel2 s1 s2 Ig H2) as (_ & Hsn & Hhd & Hsc & _).
    destruct (startGame_keeps fuel2 s1 s2 Ig H2) as (Hh & Hl).
    pose proof (reachable_inv s Hr) as (_ & _ & _ & _ & Htimer).
    repeat split; try assumption.
    + rewrite Ii. now apply clearInterval_timer_ok.
    + now exists (nextHandle s1).
    + congruence.
    + congruence.
  - intros fuel F1 F2.
    assert (E1 : exists s1, restartGame (S fuel) s = Some s1 /\
                            randomCalls s1 = S (S (randomCalls s))).
    { unfold restartGame, initGame. cbv zeta. rewrite generateFood_first.
      - eexists. split; [reflexivity|]. simpl. now destruct (gameLoop s).
      - simpl. now destruct (gameLoop s). }
    destruct E1 as (s1 & H1 & Hrc). exists s1.
    pose proof (restartGame_inv _ _ _ H1) as (_ & _ & _ & _ & _ & _ & _ & Ig & _).
    unfold startGame. rewrite Ig. simpl. unfold initGame. cbv zeta.
    rewrite generateFood_first.
    + simpl. eexists. split; [exact H1 | reflexivity].
    + simpl. now rewrite Hrc.
Qed.

(** *** The snake and the board *)

(** X12.  On a canvas wide enough for the initial snake, the snake of a
    reachable state never has more cells than the board, so the score never
    exceeds ten times the number of cells of the board less three. *)
Theorem snake_fits_board (s : State) :
  200 < canvas_width -> reachable s ->
  let n := (canvas_width + GRID_SIZE - 1) / GRID_SIZE in
  Z.of_nat (length (snake s)) <= n * n /\ score s <= 10 * (n * n - 3).
Proof.
  intros Hw Hr n.
  pose proof (reachable_snake_on_board s Hw Hr) as Hb.
  pose proof (reachable_inv s Hr) as (_ & Hnd & _).
  assert (Hincl : incl (snake s) board_cells).
  { intros c Hc. apply in_board_cells. rewrite Forall_forall in Hb. now apply Hb. }
  pose proof (NoDup_incl_length Hnd Hincl) as Hlen.
  apply Nat2Z.inj_le in Hlen. rewrite length_board_cells in Hlen. fold n in Hlen.
  assert (0 <= n) by (unfold n, GRID_SIZE; Z.div_mod_to_equations; lia).
  rewrite Z.max_r in Hlen by assumption.
  split; [exact Hlen|]. rewrite (reachable_score_length s Hr). lia.
Qed.

(** X13.  A tick that eats the food on the last free cell of the board
    never returns: the grown snake covers the board, every candidate of the
    food placement is rejected, and [generateFood] recurses without end. *)
Theorem eating_last_free_cell_never_returns (s : State) (s0 : Cell) (tl : list Cell) :
  0 < canvas_width -> unit_oracle ->
  gamePaused s = false -> snake s = s0 :: tl ->
  nextHead s0 s = food s -> in_board (food s) -> ~ In (food s) (snake s) ->
  (forall c, in_board c -> c = food s \/ In c (snake s)) ->
  forall fuel, update fuel s = None.
Proof.
  intros Hw Hrand Hp Hs Heq Hb Hoff Hfull fuel.
  rewrite (update_eat fuel s s0 tl Hp Hs);
    [ | rewrite Heq; exact Hb | rewrite Heq; exact Hoff | exact Heq ].
  rewrite generateFood_full_board; [reflexivity | exact Hw | exact Hrand |].
  intros c Hc. destruct (scored_frame (nextHead s0 s) s) as (-> & _).
  rewrite Heq. destruct (Hfull c Hc) as [->|Hin]; [now left | now right].
Qed.

(** *** Drawing *)

Lemma Qfloor_TILE_COUNT : Qfloor TILE_COUNT = canvas_width / GRID_SIZE.
Proof. unfold TILE_COUNT. symmetry. apply Zdiv_Qdiv. Qed.

Lemma gridLines_in_canvas :
  0 <= canvas_width <= canvas_height ->
  Forall in_canvas (flat_map op_box gridLines).
Proof.
  intros Hw. unfold gridLines. rewrite Qfloor_TILE_COUNT.
  assert (Hi : Forall (fun i => 0 <= i /\ i * GRID_SIZE <= canvas_width)
                 (map Z.of_nat (seq 0 (Z.to_nat (canvas_width / GRID_SIZE + 1))))).
  { apply Forall_forall. intros i Hin. apply in_map_iff in Hin.
    destruct Hin as (n & <- & Hn). apply in_seq in Hn. unfold GRID_SIZE in *.
    assert (Z.of_nat n <= canvas_width / 20) by lia.
    split; [lia|]. Z.div_mod_to_equations. lia. }
  induction Hi as [|i l [H0 H1] _ IH]; [constructor|].
  cbn [flat_map app op_box]. unfold in_canvas.
  repeat (constructor; [cbn [x_min x_max y_min y_max]; unfold GRID_SIZE in *; lia|]).
  exact IH.
Qed.

Lemma forEach_in_canvas (l : list Cell) : forall index,
  canvas_width mod GRID_SIZE = 0 -> canvas_width <= canvas_height ->
  Forall in_board l -> Forall in_canvas (flat_map op_box (forEach l index)).
Proof.
  induction l as [|c l IH]; intros index Hm Hh Hb; [constructor|].
  inversion Hb as [|? ? Hc Hl]; subst.
  cbn [forEach]. rewrite flat_map_app. apply Forall_app. split; [|now apply IH].
  apply in_board_Z in Hc. unfold drawSegment, in_canvas.
  destruct (Nat.eqb index 0); cbn [flat_map app op_box];
    repeat (constructor;
            [cbn [x_min x_max y_min y_max]; unfold GRID_SIZE in *;
             Z.div_mod_to_equations; lia|]);
    constructor.
Qed.

(** X14.  On a canvas whose width is a multiple of the tile size and
    whose height is not below its width, everything [draw] draws for a
    reachable state is on the canvas: the background, the grid lines, the
    squares of the snake and the disc of the food. *)
Theorem draw_stays_on_canvas (s : State) :
  200 < canvas_width -> canvas_width mod GRID_SIZE = 0 ->
  canvas_width <= canvas_height -> unit_oracle ->
  reachable s -> Forall in_canvas (flat_map op_box (draw s)).
Proof.
  intros Hw Hm Hh Hrand Hr.
  pose proof (reachable_snake_on_board s Hw Hr) as Hb.
  assert (Hw0 : 0 < canvas_width) by lia.
  pose proof (reachable_food_on_board s Hw0 Hrand Hr) as Hf.
  unfold draw. rewrite !flat_map_app.
  apply Forall_app; split; [|apply Forall_app; split; [|apply Forall_app; split]].
  - cbn [flat_map app op_box]. constructor; [|constructor].
    unfold in_canvas. cbn [x_min x_max y_min y_max]. lia.
  - apply gridLines_in_canvas. lia.
  - now apply forEach_in_canvas.
  - apply in_board_Z in Hf. cbn [flat_map app op_box].
    constructor; [|constructor]. unfold in_canvas. cbn [x_min x_max y_min y_max].
    unfold GRID_SIZE in *. Z.div_mod_to_equations. lia.
Qed.






(** *** Phases *)

(** X16.  An event either leaves the phase of a reachable state as it is
    or makes one of these moves: the start button from idle or ended to
    running, the pause button or the space key between running and paused,
    a timer from running to ended, the restart button to idle.  In
    particular a paused game never ends, and a game that is over starts
    again on the start button alone. *)
Theorem phase_moves (s s' : State) (e : Event) (fuel : nat) :
  reachable s -> step fuel e s = Some s' ->
  phase s' = phase s \/ phase_move e (phase s) (phase s').
Proof.
  intros Hr H.
  pose proof (reachable_inv s Hr) as (_ & _ & _ & _ & Htimer).
  apply step_transition in H. transition_cases H.
  - now left.
  - right. pose proof (timer_active_started h s Htimer Hact) as Hg.
    destruct (endGame_frame s) as (_ & _ & _ & _ & _ & _ & Eg & _ & _ & Eo & _).
    unfold phase_move, phase. rewrite Eg, Eo, Hg, Hp. now split.
  - left. reflexivity.
  - left. pose proof (timer_active_started h s Htimer Hact) as Hg.
    apply generateFood_frame in Hgen.
    destruct Hgen as (_ & _ & _ & _ & _ & _ & Gg & Gp & _).
    destruct (accelerate_frame sf) as (_ & _ & _ & _ & _ & _ & Ag & Ap & _).
    destruct (scored_frame (nextHead s0 s) s)
      as (_ & _ & _ & _ & _ & _ & _ & Eg & Ep & _).
    unfold phase. now rewrite Ag, Ap, Gg, Gp, Eg, Ep, Hg.
  - left. reflexivity.
  - right. unfold phase_move, phase. simpl. rewrite Hg.
    destruct (gamePaused s); simpl; auto.
  - right. unfold phase_move, phase. simpl. rewrite Hg.
    destruct (gamePaused s); simpl; auto.
  - right. apply initGame_inv in Hinit. simpl in Hinit.
    destruct Hinit as (_ & _ & _ & _ & _ & _ & _ & _ & Ig & Ip & _).
    unfold phase_move, phase, setInterval. simpl. rewrite Ig, Ip, Hg.
    split; [|reflexivity]. destruct (gameOverShown s); auto.
  - right. apply restartGame_inv in Hre.
    destruct Hre as (_ & _ & _ & _ & Io & _ & _ & Ig & _).
    unfold phase_move, phase. now rewrite Ig, Io.
Qed.

End Game.

(** ** The sample game *)

Lemma food_ahead_unit : unit_oracle food_ahead.
Proof.
  intros n. destruct n as [|[|[|[|n]]]]; split; unfold Qle, Qlt; simpl; lia.
Qed.

Lemma loaded_sample_reachable :
  reachable sample_width food_ahead None loaded_sample.
Proof. apply (reach_load _ _ _ 1%nat). reflexivity. Qed.

Lemma running_sample_reachable :
  reachable sample_width food_ahead None running_sample.
Proof.
  apply (reach_step _ _ _ 1%nat ClickStart loaded_sample).
  - exact loaded_sample_reachable.
  - reflexivity.
Qed.

Lemma eaten_sample_reachable :
  reachable sample_width food_ahead None eaten_sample.
Proof.
  apply (reach_step _ _ _ 1%nat (TimerFire 0) running_sample).
  - exact running_sample_reachable.
  - reflexivity.
Qed.

Lemma ended_sample_reachable :
  reachable sample_width food_ahead None ended_sample.
Proof.
  apply (run_reachable _ _ _ 1%nat sample_game loaded_sample).
  - exact loaded_sample_reachable.
  - reflexivity.
Qed.

Lemma cycling_unit : unit_oracle cycling.
Proof.
  intros n. unfold cycling. cbv zeta.
  set (v := if Z.even (Z.of_nat n) then _ else _).
  assert (0 <= v < 20) by (unfold v; destruct (Z.even _); apply Z.mod_pos_bound; lia).
  unfold Qle, Qlt. simpl. lia.
Qed.

Lemma floor_twentieth (v : Z) : Qfloor ((v # 20) * TILE_COUNT sample_width) = v.
Proof.
  unfold TILE_COUNT, sample_width, GRID_SIZE, Qfloor, Qmult, Qdiv, Qinv, inject_Z.
  cbn -[Z.mul Z.div]. Z.div_mod_to_equations. lia.
Qed.

(** From an even call count on, [cycling] proposes every cell of the
    20 by 20 board. *)
Lemma cycling_fair (m : nat) : fair_from sample_width cycling (2 * m).
Proof.
  intros c Hc. apply in_board_Z in Hc. unfold GRID_SIZE, sample_width in Hc.
  exists (Z.to_nat (x c + 20 * y c + 400 * (Z.of_nat m + 1) - Z.of_nat m)).
  set (k := Z.to_nat _).
  assert (Hk : Z.of_nat k = x c + 20 * y c + 400 * (Z.of_nat m + 1) - Z.of_nat m)
    by (unfold k; lia).
  unfold candidate, cycling. cbv zeta. rewrite !floor_twentieth.
  replace (Z.of_nat (2 * m + 2 * k)) with (0 + 2 * (Z.of_nat m + Z.of_nat k)) by lia.
  replace (Z.of_nat (S (2 * m + 2 * k))) with (1 + 2 * (Z.of_nat m + Z.of_nat k)) by lia.
  rewrite !Z.even_add_mul_2. change (Z.even 0) with true. change (Z.even 1) with false.
  cbv iota. apply cell_eq_iff. cbn [x y]. split; Z.div_mod_to_equations; lia.
Qed.

(** ** The properties on the sample game *)

(** The first tick of the sample game eats the food at (11,10). *)
Lemma tick_trichotomy_witness :
  0 < sample_width /\ unit_oracle food_ahead /\
  reachable sample_width food_ahead None running_sample /\
  phase running_sample = Running /\
  step sample_width food_ahead 1 (TimerFire 0) running_sample =
    update sample_width food_ahead 1 running_sample /\
  update sample_width food_ahead 1 running_sample = Some eaten_sample /\
  grows (mkCell 11 10) running_sample eaten_sample.
Proof.
  split; [reflexivity|]. split; [exact food_ahead_unit|].
  split; [exact running_sample_reachable|]. split; [reflexivity|].
  destruct (tick_trichotomy sample_width food_ahead None running_sample
              eq_refl food_ahead_unit running_sample_reachable eq_refl)
    as (h & s0 & tl & Hl & Hs & H).
  injection Hl as <-. injection Hs as <- <-.
  destruct (H 1%nat) as (Hstep & Hfood & _).
  split; [exact Hstep|]. split; [reflexivity|].
  destruct (Hfood eq_refl) as (Hgrow & _).
  destruct (Hgrow eaten_sample eq_refl) as (Hg & _). exact Hg.
Defined.

Lemma snake_on_board_and_distinct_witness :
  200 < sample_width /\ reachable sample_width food_ahead None ended_sample /\
  Forall (in_board sample_width) (snake ended_sample) /\ NoDup (snake ended_sample).
Proof.
  split; [reflexivity|]. split; [exact ended_sample_reachable|].
  apply (snake_on_board_and_distinct sample_width food_ahead None ended_sample eq_refl).
  exact ended_sample_reachable.
Defined.

Lemma snake_length_never_shrinks_witness :
  reachable sample_width food_ahead None running_sample /\
  (3 <= length (snake running_sample))%nat /\
  (length (snake eaten_sample) = length (snake running_sample) \/
   (length (snake eaten_sample) = S (length (snake running_sample)) /\
    score eaten_sample = score running_sample + 10)).
Proof.
  split; [exact running_sample_reachable|].
  destruct (snake_length_never_shrinks sample_width food_ahead None running_sample
              running_sample_reachable) as (Hlen & _ & Hstep).
  split; [exact Hlen|].
  exact (Hstep 1%nat (TimerFire 0) eaten_sample eq_refl).
Defined.

(** C8 as the specification states it fails on the loaded page, which is
    idle: a call of [update] there moves the snake. *)
Lemma tick_while_idle_moves_the_snake :
  reachable sample_width food_ahead None loaded_sample /\
  phase loaded_sample = Idle /\
  update sample_width food_ahead 1 loaded_sample = Some idle_ticked_sample /\
  snake idle_ticked_sample <> snake loaded_sample.
Proof.
  split; [exact loaded_sample_reachable|]. split; [reflexivity|].
  split; [reflexivity | discriminate].
Qed.

Lemma tick_outside_running_witness :
  reachable sample_width food_ahead None ended_sample /\
  phase ended_sample <> Running /\ phase ended_sample <> Idle /\
  step sample_width food_ahead 1 (TimerFire 1) ended_sample = Some ended_sample /\
  update sample_width food_ahead 1 ended_sample = Some ended_sample.
Proof.
  split; [exact ended_sample_reachable|]. split; [discriminate|]. split; [discriminate|].
  destruct (tick_outside_running sample_width food_ahead None ended_sample
              ended_sample_reachable) as (Htimer & Hcall); [discriminate|].
  split; [exact (Htimer 1%nat 1%nat)|].
  apply Hcall. discriminate.
Defined.

(** The snake of the sample game heads right: the left arrow is ignored. *)
Lemma reverse_direction_ignored_witness :
  heading running_sample = delta (opposite Left) /\
  keydown ArrowLeft running_sample = running_sample.
Proof.
  split; [reflexivity|].
  exact (proj1 (reverse_direction_ignored sample_width food_ahead running_sample Left
                  eq_refl)).
Defined.

Lemma food_on_board_off_snake_witness :
  0 < sample_width /\ unit_oracle food_ahead /\
  generateFood sample_width food_ahead 1 loaded_sample =
    Some (set_randomCalls 4 (set_food (mkCell 11 10) loaded_sample)) /\
  (in_board sample_width (mkCell 11 10) /\ ~ In (mkCell 11 10) (snake loaded_sample)) /\
  (in_board sample_width (food eaten_sample) /\
   ~ In (food eaten_sample) (snake eaten_sample)).
Proof.
  split; [reflexivity|]. split; [exact food_ahead_unit|]. split; [reflexivity|].
  destruct (food_on_board_off_snake sample_width food_ahead None eq_refl food_ahead_unit)
    as (Hcall & _ & Hreach).
  split.
  - destruct (Hcall 1%nat loaded_sample _ eq_refl) as (Hb & Hoff & _).
    split; [exact Hb | exact Hoff].
  - exact (Hreach eaten_sample eaten_sample_reachable).
Defined.

(** On the 20 by 20 board the 3-cell snake leaves cells free, and the
    cycling generator reaches one. *)
Lemma generateFood_terminates_witness :
  0 <= sample_width /\
  (inject_Z (Z.of_nat (length (snake loaded_sample))) <
     TILE_COUNT sample_width * TILE_COUNT sample_width)%Q /\
  fair_from sample_width cycling (randomCalls loaded_sample) /\
  exists fuel s', generateFood sample_width cycling fuel loaded_sample = Some s' /\
                  ~ In (food s') (snake loaded_sample).
Proof.
  split; [discriminate|]. split; [reflexivity|].
  split; [exact (cycling_fair 1)|].
  apply (generateFood_terminates sample_width cycling loaded_sample).
  - discriminate.
  - reflexivity.
  - exact (cycling_fair 1).
Defined.

Lemma sample_execution :
  execution sample_width food_ahead None [eaten_sample; running_sample; loaded_sample].
Proof.
  apply (exec_step _ _ _ 1%nat (TimerFire 0)); [|reflexivity].
  apply (exec_step _ _ _ 1%nat ClickStart); [|reflexivity].
  apply (exec_load _ _ _ 1%nat). reflexivity.
Qed.

(** Eating the first food of the sample game sets a new high score of 10
    and writes it. *)
Lemma highScore_is_running_maximum_witness :
  0 <= initialHighScore None /\
  execution sample_width food_ahead None [eaten_sample; running_sample; loaded_sample] /\
  highScore eaten_sample = 10 /\
  (forall p, In p [running_sample; loaded_sample] -> highScore p <= highScore eaten_sample) /\
  setItemLog eaten_sample = [10].
Proof.
  split; [discriminate|]. split; [exact sample_execution|].
  apply (highScore_is_running_maximum sample_width food_ahead None eaten_sample
           [running_sample; loaded_sample]).
  - discriminate.
  - exact sample_execution.
Defined.

(** C6 as the specification states it fails on the sample game: after the
    crash into the wall, a restart leaves the phase idle, not running. *)
Lemma restart_from_ended_is_not_running :
  reachable sample_width food_ahead None ended_sample /\
  phase ended_sample = Ended /\
  restartGame sample_width food_ahead 1 ended_sample = Some restarted_sample /\
  phase restarted_sample = Idle /\ phase restarted_sample <> Running.
Proof.
  split; [exact ended_sample_reachable|]. split; [reflexivity|].
  split; [reflexivity|]. split; [reflexivity | discriminate].
Qed.

Lemma restart_returns_to_idle_witness :
  reachable sample_width food_ahead None ended_sample /\
  phase ended_sample = Ended /\
  restartGame sample_width food_ahead 1 ended_sample = Some restarted_sample /\
  (phase restarted_sample = Idle /\ gameStarted restarted_sample = false /\
   gamePaused restarted_sample = false /\ gameOverShown restarted_sample = false /\
   intervals restarted_sample = []) /\
  (snake restarted_sample = initialSnake /\ heading restarted_sample = (1, 0) /\
   score restarted_sample = 0 /\ gameSpeed restarted_sample = 120) /\
  step sample_width food_ahead 1 (TimerFire 1) restarted_sample = Some restarted_sample /\
  step sample_width food_ahead 1 ClickStart restarted_sample =
    Some restarted_started_sample /\
  (phase restarted_started_sample = Running /\
   gamePaused restarted_started_sample = false /\
   gameSpeed restarted_started_sample = 120).
Proof.
  split; [exact ended_sample_reachable|]. split; [reflexivity|].
  split; [reflexivity|].
  destruct (restart_returns_to_idle sample_width food_ahead None ended_sample
              ended_sample_reachable eq_refl) as (Hpost & _).
  destruct (Hpost 1%nat restarted_sample eq_refl) as (Hidle & Hinit & Hnext).
  split; [exact Hidle|]. split; [exact Hinit|].
  split; [reflexivity|]. split; [reflexivity|].
  exact (Hnext 1%nat ClickStart restarted_started_sample eq_refl).
Defined.

(** C7 on the sample game.  The game that ended at the wall had reached an
    interval of 118; the start button then begins a new game, with the
    initial snake and a score of 0, but arms the timer with 118: [startGame]
    does not put [gameSpeed] back to 120, which only [restartGame] does. *)
Theorem start_after_game_over_keeps_speed :
  reachable sample_width food_ahead None ended_sample /\
  phase ended_sample = Ended /\
  startGame sample_width food_ahead 1 ended_sample = Some started_again_sample /\
  phase started_again_sample = Running /\
  snake started_again_sample = initialSnake /\ score started_again_sample = 0 /\
  gameSpeed started_again_sample = 118 /\
  intervals started_again_sample = [(2%nat, 118)].
Proof.
  split; [exact ended_sample_reachable|]. split; [reflexivity|].
  repeat split.
Qed.

(** ** The further properties on the sample game *)

Lemma one_timer_at_most_witness :
  reachable sample_width food_ahead None eaten_sample /\
  exists h, gameLoop eaten_sample = Some h /\
            intervals eaten_sample = [(h, gameSpeed eaten_sample)].
Proof.
  split; [exact eaten_sample_reachable|].
  destruct (one_timer_at_most sample_width food_ahead None eaten_sample
              eaten_sample_reachable) as (Hon & _).
  exact (Hon eq_refl).
Defined.

Lemma speed_between_70_and_120_witness :
  reachable sample_width food_ahead None eaten_sample /\
  70 <= gameSpeed eaten_sample <= 120 /\ Z.even (gameSpeed eaten_sample) = true.
Proof.
  split; [exact eaten_sample_reachable|].
  exact (speed_between_70_and_120 sample_width food_ahead None eaten_sample
           eaten_sample_reachable).
Defined.

Lemma eating_accelerates_witness :
  reachable sample_width food_ahead None running_sample /\
  phase running_sample = Running /\
  update sample_width food_ahead 1 running_sample = Some eaten_sample /\
  length (snake eaten_sample) = S (length (snake running_sample)) /\
  gameSpeed eaten_sample = 118 /\ food eaten_sample <> food running_sample /\
  exists h, gameLoop eaten_sample = Some h /\
            intervals eaten_sample = [(h, gameSpeed eaten_sample)].
Proof.
  split; [exact running_sample_reachable|]. split; [reflexivity|].
  split; [reflexivity|]. split; [reflexivity|].
  exact (eating_accelerates sample_width food_ahead None running_sample eaten_sample 1
           running_sample_reachable eq_refl eq_refl eq_refl).
Defined.

Lemma score_counts_growth_witness :
  reachable sample_width food_ahead None eaten_sample /\
  score eaten_sample = 10 * (Z.of_nat (length (snake eaten_sample)) - 3).
Proof.
  split; [exact eaten_sample_reachable|].
  exact (score_counts_growth sample_width food_ahead None eaten_sample
           eaten_sample_reachable).
Defined.

Lemma snake_is_a_chain_witness :
  reachable sample_width food_ahead None ended_sample /\ chain (snake ended_sample).
Proof.
  split; [exact ended_sample_reachable|].
  exact (snake_is_a_chain sample_width food_ahead None ended_sample
           ended_sample_reachable).
Defined.

Lemma storage_follows_highScore_witness :
  reachable sample_width food_ahead None eaten_sample /\
  highScore eaten_sample = hd (initialHighScore None) (setItemLog eaten_sample) /\
  rising (setItemLog eaten_sample) /\
  Forall (fun v => initialHighScore None < v) (setItemLog eaten_sample).
Proof.
  split; [exact eaten_sample_reachable|].
  exact (storage_follows_highScore sample_width food_ahead None eaten_sample
           eaten_sample_reachable).
Defined.

(** Heading right, the up arrow turns the snake. *)
Lemma arrow_turns_iff_perpendicular_witness :
  gameStarted running_sample = true /\ heading running_sample = delta Right /\
  keydown ArrowUp running_sample = set_dir 0 (-1) running_sample /\
  keydown ArrowRight running_sample = running_sample.
Proof.
  split; [reflexivity|]. split; [reflexivity|]. split.
  - exact (arrow_turns_iff_perpendicular running_sample Up Right eq_refl eq_refl).
  - exact (arrow_turns_iff_perpendicular running_sample Right Right eq_refl eq_refl).
Defined.

(** Heading right, up and then left before the next tick: the game is over. *)
Lemma quick_reversal_ends_game_witness :
  gameStarted running_sample = true /\ gamePaused running_sample = false /\
  heading running_sample = delta Right /\ perpendicular Up Right = true /\
  snake running_sample = [mkCell 10 10; mkCell 9 10; mkCell 8 10] /\
  heading (keydown ArrowLeft (keydown ArrowUp running_sample)) = (-1, 0) /\
  update sample_width food_ahead 1 (keydown ArrowLeft (keydown ArrowUp running_sample)) =
    Some (endGame (keydown ArrowLeft (keydown ArrowUp running_sample))) /\
  phase (endGame (keydown ArrowLeft (keydown ArrowUp running_sample))) = Ended.
Proof.
  split; [reflexivity|]. split; [reflexivity|]. split; [reflexivity|].
  split; [reflexivity|]. split; [reflexivity|].
  exact (quick_reversal_ends_game sample_width food_ahead running_sample Right Up
           (mkCell 10 10) (mkCell 9 10) [mkCell 8 10] 1
           eq_refl eq_refl eq_refl eq_refl eq_refl eq_refl eq_refl).
Defined.

Lemma pause_resume_round_trip_witness :
  gameStarted running_sample = true /\ gamePaused running_sample = false /\
  run sample_width food_ahead 1
    (ClickPause :: map TimerFire [0%nat; 0%nat; 7%nat] ++ [Keydown Space])
    running_sample = Some running_sample.
Proof.
  split; [reflexivity|]. split; [reflexivity|].
  apply (pause_resume_round_trip sample_width food_ahead running_sample
           ClickPause (Keydown Space) [0%nat; 0%nat; 7%nat] 1 eq_refl eq_refl).
  - left. reflexivity.
  - right. left. reflexivity.
Defined.

Lemma not_started_only_buttons_act_witness :
  reachable sample_width food_ahead None ended_sample /\
  gameStarted ended_sample = false /\
  step sample_width food_ahead 1 (Keydown ArrowUp) ended_sample = Some ended_sample /\
  step sample_width food_ahead 1 ClickPause ended_sample = Some ended_sample.
Proof.
  split; [exact ended_sample_reachable|]. split; [reflexivity|]. split.
  - apply (not_started_only_buttons_act sample_width food_ahead None ended_sample
             (Keydown ArrowUp) 1 ended_sample_reachable eq_refl); discriminate.
  - apply (not_started_only_buttons_act sample_width food_ahead None ended_sample
             ClickPause 1 ended_sample_reachable eq_refl); discriminate.
Defined.

(** Restart in the middle of the sample game, then start. *)
Lemma restart_then_start_witness :
  reachable sample_width food_ahead None eaten_sample /\
  restartGame sample_width food_ahead 1 eaten_sample = Some restarted_sample /\
  startGame sample_width food_ahead 1 restarted_sample = Some restarted_started_sample /\
  phase restarted_sample = Idle /\ intervals restarted_sample = [] /\
  phase restarted_started_sample = Running /\
  snake restarted_started_sample = initialSnake /\
  heading restarted_started_sample = (1, 0) /\
  score restarted_started_sample = 0 /\ gameSpeed restarted_started_sample = 120 /\
  (exists h, intervals restarted_started_sample = [(h, 120)]) /\
  highScore restarted_started_sample = highScore eaten_sample /\
  setItemLog restarted_started_sample = setItemLog eaten_sample.
Proof.
  split; [exact eaten_sample_reachable|]. split; [reflexivity|]. split; [reflexivity|].
  destruct (restart_then_start sample_width food_ahead None eaten_sample
              eaten_sample_reachable) as (Hpost & _).
  exact (Hpost 1%nat 1%nat restarted_sample restarted_started_sample eq_refl eq_refl).
Defined.

Lemma snake_fits_board_witness :
  200 < sample_width /\ reachable sample_width food_ahead None ended_sample /\
  Z.of_nat (length (snake ended_sample)) <= 400 /\ score ended_sample <= 3970.
Proof.
  split; [reflexivity|]. split; [exact ended_sample_reachable|].
  exact (snake_fits_board sample_width food_ahead None ended_sample eq_refl
           ended_sample_reachable).
Defined.

Lemma last_cell_sample_full (c : Cell) :
  in_board 40 c -> c = food last_cell_sample \/ In c (snake last_cell_sample).
Proof.
  intros Hc. apply in_board_Z in Hc. unfold GRID_SIZE in Hc.
  destruct c as [cx cy]. cbn [x y] in Hc.
  assert (Hx : cx = 0 \/ cx = 1) by lia. assert (Hy : cy = 0 \/ cy = 1) by lia.
  destruct Hx as [-> | ->], Hy as [-> | ->]; simpl; auto.
Qed.

Lemma last_cell_sample_food_on_board : in_board 40 (food last_cell_sample).
Proof. apply in_board_Z. unfold GRID_SIZE. cbn [x y food last_cell_sample]. lia. Qed.

Lemma last_cell_sample_food_off_snake :
  ~ In (food last_cell_sample) (snake last_cell_sample).
Proof. simpl. intros [H|[H|[H|[]]]]; discriminate. Qed.

(** On the 2 by 2 board, eating the food on the fourth cell. *)
Lemma eating_last_free_cell_never_returns_witness :
  0 < 40 /\ unit_oracle food_ahead /\ gamePaused last_cell_sample = false /\
  nextHead (mkCell 0 0) last_cell_sample = food last_cell_sample /\
  in_board 40 (food last_cell_sample) /\
  ~ In (food last_cell_sample) (snake last_cell_sample) /\
  update 40 food_ahead 1000 last_cell_sample = None.
Proof.
  split; [reflexivity|]. split; [exact food_ahead_unit|]. split; [reflexivity|].
  split; [reflexivity|]. split; [exact last_cell_sample_food_on_board|].
  split; [exact last_cell_sample_food_off_snake|].
  exact (eating_last_free_cell_never_returns 40 food_ahead last_cell_sample
           (mkCell 0 0) [mkCell 0 1; mkCell 1 1]
           eq_refl food_ahead_unit eq_refl eq_refl eq_refl
           last_cell_sample_food_on_board last_cell_sample_food_off_snake
           last_cell_sample_full 1000%nat).
Defined.

Lemma draw_stays_on_canvas_witness :
  200 < sample_width /\ sample_width mod GRID_SIZE = 0 /\ sample_width <= 400 /\
  unit_oracle food_ahead /\ reachable sample_width food_ahead None eaten_sample /\
  Forall (in_canvas sample_width 400) (flat_map op_box (draw sample_width 400 eaten_sample)).
Proof.
  split; [reflexivity|]. split; [reflexivity|]. split; [discriminate|].
  split; [exact food_ahead_unit|]. split; [exact eaten_sample_reachable|].
  apply (draw_stays_on_canvas sample_width food_ahead None 400 eaten_sample).
  - reflexivity.
  - reflexivity.
  - discriminate.
  - exact food_ahead_unit.
  - exact eaten_sample_reachable.
Defined.


(** The pause button takes the running sample game to paused. *)
Lemma phase_moves_witness :
  reachable sample_width food_ahead None running_sample /\
  step sample_width food_ahead 1 ClickPause running_sample =
    Some (togglePause running_sample) /\
  (phase (togglePause running_sample) = phase running_sample \/
   phase_move ClickPause (phase running_sample) (phase (togglePause running_sample))).
Proof.
  split; [exact running_sample_reachable|]. split; [reflexivity|].
  exact (phase_moves sample_width food_ahead None running_sample
           (togglePause running_sample) ClickPause 1
           running_sample_reachable eq_refl).
Defined.
